(** * Bank-statement import: CSV tokenizer, date and amount normalizers,
      per-day deduplication and running-balance reconstruction.

    Shallow embedding of the statement-import component
    ([parseCsv], [toIsoDate], [parseDateFromParts], [normalizeDate],
    [parseAmount], [validRows], [dedupedRows], [startingBalance],
    [importEntries]) together with the parts of the JavaScript runtime it
    calls (string trimming, [Number], [parseFloat], [Date.UTC] and the UTC
    getters, [toISOString], insertion-ordered [Map], stable [sort]). *)

From Stdlib Require Import ZArith NArith List Bool Lia String Ascii.
From Stdlib Require Import Floats.SpecFloat.
From Stdlib Require Import Sorting.Sorted Sorting.Permutation.
Import ListNotations.

Set Implicit Arguments.
Local Open Scope Z_scope.

(** ** JavaScript strings

    A JavaScript string is a sequence of UTF-16 code units; [text[i]],
    [length], [trim], [split], [startsWith] and the regular expressions of
    the component all work on code units. *)

Module JS.

Definition char := N.
Definition jsstring := list char.

(** Code units of a literal, for writing examples. *)
Definition str (s : string) : jsstring :=
  List.map N_of_ascii (list_ascii_of_string s).

Definition DQUOTE : char := 34%N.
Definition COMMA : char := 44%N.
Definition LF : char := 10%N.
Definition CR : char := 13%N.
Definition DOLLAR : char := 36%N.
Definition LPAREN : char := 40%N.
Definition RPAREN : char := 41%N.
Definition PLUS : char := 43%N.
Definition MINUS : char := 45%N.
Definition DOT : char := 46%N.
Definition SLASH : char := 47%N.

Definition char_eqb (a b : char) : bool := N.eqb a b.

Fixpoint string_eqb (a b : jsstring) : bool :=
  match a, b with
  | [], [] => true
  | x :: a', y :: b' => char_eqb x y && string_eqb a' b'
  | _, _ => false
  end.

(** WhiteSpace and LineTerminator code points: what [trim] strips and what
    [\s] matches. *)
Definition isWhiteSpace (c : char) : bool :=
  let n := Z.of_N c in
  (n =? 9) || (n =? 10) || (n =? 11) || (n =? 12) || (n =? 13) || (n =? 32)
  || (n =? 160) || (n =? 5760) || ((8192 <=? n) && (n <=? 8202))
  || (n =? 8232) || (n =? 8233) || (n =? 8239) || (n =? 8287)
  || (n =? 12288) || (n =? 65279).

(** [\d]: the ten ASCII digits. *)
Definition isDigit (c : char) : bool :=
  let n := Z.of_N c in (48 <=? n) && (n <=? 57).

Definition digitVal (c : char) : Z := Z.of_N c - 48.

Fixpoint dropWhile {A} (p : A -> bool) (l : list A) : list A :=
  match l with
  | [] => []
  | x :: l' => if p x then dropWhile p l' else l
  end.

Fixpoint span {A} (p : A -> bool) (l : list A) : list A * list A :=
  match l with
  | [] => ([], [])
  | x :: l' =>
      if p x then let '(a, b) := span p l' in (x :: a, b) else ([], l)
  end.

Definition trimStart (s : jsstring) : jsstring := dropWhile isWhiteSpace s.
Definition trimEnd (s : jsstring) : jsstring :=
  rev (dropWhile isWhiteSpace (rev s)).
Definition trim (s : jsstring) : jsstring := trimEnd (trimStart s).

Fixpoint startsWith (s prefix : jsstring) : bool :=
  match prefix, s with
  | [], _ => true
  | p :: prefix', c :: s' => char_eqb c p && startsWith s' prefix'
  | _ :: _, [] => false
  end.

Definition endsWith (s suffix : jsstring) : bool :=
  startsWith (rev s) (rev suffix).

(** [s.slice(1)] and [s.slice(1, -1)]. *)
Definition slice1 (s : jsstring) : jsstring := tl s.
Definition slice1m1 (s : jsstring) : jsstring := removelast (tl s).

(** [s.split(sep)] for a one-character separator: always at least one
    segment. *)
Fixpoint splitOn (sep : char) (s : jsstring) : list jsstring :=
  match s with
  | [] => [[]]
  | c :: s' =>
      if char_eqb c sep then [] :: splitOn sep s'
      else match splitOn sep s' with
           | seg :: segs => (c :: seg) :: segs
           | [] => [[c]]
           end
  end.

(** Code-unit lexicographic comparison of two strings. *)
Fixpoint strCompare (a b : jsstring) : comparison :=
  match a, b with
  | [], [] => Eq
  | [], _ :: _ => Lt
  | _ :: _, [] => Gt
  | x :: a', y :: b' =>
      match N.compare x y with
      | Eq => strCompare a' b'
      | c => c
      end
  end.

(** ** JavaScript numbers

    A Number is an IEEE 754 binary64 value: the Standard Library's
    [spec_float] at precision 53 and maximal exponent 1024, with its
    round-to-nearest-even operations. *)

Definition number := spec_float.
Definition prec : Z := 53.
Definition emax : Z := 1024.

Definition NaN : number := S754_nan.
Definition Infinity : number := S754_infinity false.
Definition ofZ (z : Z) : number := binary_normalize prec emax z 0 false.
Definition add (x y : number) : number := SFadd prec emax x y.
Definition sub (x y : number) : number := SFsub prec emax x y.
Definition neg (x : number) : number := SFopp x.
Definition abs (x : number) : number := SFabs x.
(** [===], [<] and [<=] on numbers. *)
Definition eqb (x y : number) : bool := SFeqb x y.
Definition ltb (x y : number) : bool := SFltb x y.
Definition leb (x y : number) : bool := SFleb x y.

Definition isNaN (x : number) : bool :=
  match x with S754_nan => true | _ => false end.

Definition isFinite (x : number) : bool :=
  match x with S754_zero _ | S754_finite _ _ _ => true | _ => false end.

(** ToIntegerOrInfinity of a finite number: truncation towards zero. *)
Definition truncate (x : number) : Z :=
  match x with
  | S754_finite s m e =>
      let a := if 0 <=? e then Z.pos m * 2 ^ e else Z.pos m / 2 ^ (- e) in
      if s then - a else a
  | _ => 0
  end.

(** The Number nearest to [(-1)^s * m * 10^e] for [0 <= m]. *)
Definition decimalToNumber (s : bool) (m e : Z) : number :=
  match m with
  | Z.pos p =>
      if 0 <=? e then binary_round prec emax s (p * Z.to_pos (10 ^ e)) 0
      else
        let '(q, e', l) := SFdiv_core_binary prec emax m 0 (10 ^ (- e)) 0 in
        binary_round_aux prec emax s q e' l
  | _ => S754_zero s
  end.

Definition digitsVal (ds : jsstring) : Z :=
  fold_left (fun acc c => acc * 10 + digitVal c) ds 0.

(** ExponentPart, when one is present at the head of [s]: its value and
    the text after it; otherwise exponent 0 and [s] untouched. *)
Definition scanExponent (s : jsstring) : Z * jsstring :=
  match s with
  | c :: r =>
      if char_eqb c 101%N || char_eqb c 69%N then
        let '(sgn, r1) :=
          match r with
          | c1 :: r' =>
              if char_eqb c1 MINUS then (true, r')
              else if char_eqb c1 PLUS then (false, r') else (false, r)
          | [] => (false, r)
          end in
        let '(ds, r2) := span isDigit r1 in
        match ds with
        | [] => (0, s)
        | _ => ((if sgn then - digitsVal ds else digitsVal ds), r2)
        end
      else (0, s)
  | [] => (0, s)
  end.

(** Longest prefix of [s] that is a StrUnsignedDecimalLiteral, as the
    Number it denotes with sign [sg], and the text after it. *)
Definition scanUnsigned (sg : bool) (s : jsstring) : option (number * jsstring) :=
  if startsWith s (str "Infinity") then
    Some (S754_infinity sg, skipn 8 s)
  else
    let '(ip, r1) := span isDigit s in
    match r1 with
    | c :: r2 =>
        if char_eqb c DOT then
          let '(fp, r3) := span isDigit r2 in
          match ip, fp with
          | [], [] => None
          | _, _ =>
              let '(ex, r4) := scanExponent r3 in
              Some (decimalToNumber sg (digitsVal (ip ++ fp))
                      (ex - Z.of_nat (List.length fp)), r4)
          end
        else
          match ip with
          | [] => None
          | _ => let '(ex, r4) := scanExponent r1 in
                 Some (decimalToNumber sg (digitsVal ip) ex, r4)
          end
    | [] =>
        match ip with
        | [] => None
        | _ => Some (decimalToNumber sg (digitsVal ip) 0, [])
        end
    end.

(** Longest prefix that is a StrDecimalLiteral (optional sign first). *)
Definition scanDecimal (s : jsstring) : option (number * jsstring) :=
  match s with
  | c :: r =>
      if char_eqb c MINUS then scanUnsigned true r
      else if char_eqb c PLUS then scanUnsigned false r
      else scanUnsigned false s
  | [] => None
  end.

(** [parseFloat(s)]. *)
Definition parseFloat (s : jsstring) : number :=
  match scanDecimal (trimStart s) with
  | Some (v, _) => v
  | None => NaN
  end.

(** NonDecimalIntegerLiteral: [0x], [0o] or [0b] and digits of that base. *)
Definition baseDigit (base : Z) (c : char) : option Z :=
  let n := Z.of_N c in
  let v := if (48 <=? n) && (n <=? 57) then n - 48
           else if (97 <=? n) && (n <=? 102) then n - 87
           else if (65 <=? n) && (n <=? 70) then n - 55
           else base in
  if v <? base then Some v else None.

Fixpoint baseDigitsVal (base : Z) (acc : Z) (ds : jsstring) : option Z :=
  match ds with
  | [] => Some acc
  | c :: ds' =>
      match baseDigit base c with
      | Some v => baseDigitsVal base (acc * base + v) ds'
      | None => None
      end
  end.

Definition scanNonDecimal (s : jsstring) : option number :=
  match s with
  | z :: b :: (_ :: _) as ds =>
      if char_eqb z 48%N then
        let base :=
          if char_eqb b 120%N || char_eqb b 88%N then Some 16
          else if char_eqb b 111%N || char_eqb b 79%N then Some 8
          else if char_eqb b 98%N || char_eqb b 66%N then Some 2
          else None in
        match base with
        | Some k => option_map ofZ (baseDigitsVal k 0 ds)
        | None => None
        end
      else None
  | _ => None
  end.

(** [Number(s)]: StringToNumber. *)
Definition Number (s : jsstring) : number :=
  match trim s with
  | [] => S754_zero false
  | t =>
      match scanNonDecimal t with
      | Some v => v
      | None =>
          match scanDecimal t with
          | Some (v, []) => v
          | _ => NaN
          end
      end
  end.

(** ** JavaScript dates

    Time values are integral milliseconds since the epoch; an invalid Date
    has none. Day numbers and the calendar follow the language definition
    (proleptic Gregorian calendar). *)

Definition msPerDay : Z := 86400000.
Definition maxTime : Z := 8640000000000000.

Definition Day (t : Z) : Z := t / msPerDay.

Definition InLeapYear (y : Z) : Z :=
  if (y mod 4 =? 0) && (negb (y mod 100 =? 0) || (y mod 400 =? 0))
  then 1 else 0.

Definition DaysInYear (y : Z) : Z := 365 + InLeapYear y.

Definition DayFromYear (y : Z) : Z :=
  365 * (y - 1970) + (y - 1969) / 4 - (y - 1901) / 100 + (y - 1601) / 400.

(** The largest year whose first day is not after day [d]: the mean year
    length gives an estimate that is off by at most one. *)
Definition YearFromDay (d : Z) : Z :=
  let y0 := 1970 + (400 * d) / 146097 in
  if DayFromYear (y0 + 1) <=? d then y0 + 1
  else if DayFromYear y0 <=? d then y0
  else y0 - 1.

Definition YearFromTime (t : Z) : Z := YearFromDay (Day t).

Definition DayWithinYear (t : Z) : Z := Day t - DayFromYear (YearFromTime t).

(** Day within the year on which month [m] (0 to 11) starts. *)
Definition monthStart (leap m : Z) : Z :=
  match m with
  | 0 => 0 | 1 => 31 | 2 => 59 + leap | 3 => 90 + leap | 4 => 120 + leap
  | 5 => 151 + leap | 6 => 181 + leap | 7 => 212 + leap | 8 => 243 + leap
  | 9 => 273 + leap | 10 => 304 + leap | _ => 334 + leap
  end.

Definition MonthFromTime (t : Z) : Z :=
  let leap := InLeapYear (YearFromTime t) in
  let d := DayWithinYear t in
  if d <? 31 then 0 else if d <? 59 + leap then 1
  else if d <? 90 + leap then 2 else if d <? 120 + leap then 3
  else if d <? 151 + leap then 4 else if d <? 181 + leap then 5
  else if d <? 212 + leap then 6 else if d <? 243 + leap then 7
  else if d <? 273 + leap then 8 else if d <? 304 + leap then 9
  else if d <? 334 + leap then 10 else 11.

Definition DateFromTime (t : Z) : Z :=
  DayWithinYear t - monthStart (InLeapYear (YearFromTime t)) (MonthFromTime t) + 1.

(** MakeDay on integral arguments. *)
Definition MakeDay (year month date : Z) : Z :=
  let ym := year + month / 12 in
  let mn := month mod 12 in
  DayFromYear ym + monthStart (InLeapYear ym) mn + date - 1.

Definition TimeClip (t : Z) : option Z :=
  if Z.abs t <=? maxTime then Some t else None.

(** A Date object: its time value, or [None] for an invalid Date. *)
Definition Date := option Z.

(** [new Date(Date.UTC(year, month, day))]. Years 0 to 99 mean 1900 to
    1999. *)
Definition Date_UTC (year month day : number) : Date :=
  if isFinite year && isFinite month && isFinite day then
    let yi := truncate year in
    let yr := if (0 <=? yi) && (yi <=? 99) then 1900 + yi else yi in
    TimeClip (MakeDay yr (truncate month) (truncate day) * msPerDay)
  else None.

Definition getUTCFullYear (d : Date) : number :=
  match d with Some t => ofZ (YearFromTime t) | None => NaN end.
Definition getUTCMonth (d : Date) : number :=
  match d with Some t => ofZ (MonthFromTime t) | None => NaN end.
Definition getUTCDate (d : Date) : number :=
  match d with Some t => ofZ (DateFromTime t) | None => NaN end.

(** [n] written with exactly [w] decimal digits. *)
Fixpoint padDigits (w : nat) (n : Z) : jsstring :=
  match w with
  | O => []
  | S w' => padDigits w' (n / 10) ++ [Z.to_N (48 + n mod 10)]
  end.

(** The year of the ISO format: four digits, or a sign and six digits
    outside 0 to 9999. *)
Definition isoYear (y : Z) : jsstring :=
  if (0 <=? y) && (y <=? 9999) then padDigits 4 y
  else (if y <? 0 then MINUS else PLUS) :: padDigits 6 (Z.abs y).

(** [toISOString()] of a valid date with time value [t]. *)
Definition toISOString (t : Z) : jsstring :=
  let ms := t mod msPerDay in
  isoYear (YearFromTime t) ++ [MINUS] ++ padDigits 2 (MonthFromTime t + 1) ++ [MINUS]
  ++ padDigits 2 (DateFromTime t) ++ str "T"
  ++ padDigits 2 (ms / 3600000) ++ str ":"
  ++ padDigits 2 (ms / 60000 mod 60) ++ str ":"
  ++ padDigits 2 (ms / 1000 mod 60) ++ str "."
  ++ padDigits 3 (ms mod 1000) ++ str "Z".

End JS.

Import JS.

(** ** The statement-import component *)

Inductive DateFormat := auto | mdy | dmy | ymd.
Inductive StatementType := balance | transactions.

Definition format_eqb (a b : DateFormat) : bool :=
  match a, b with
  | auto, auto | mdy, mdy | dmy, dmy | ymd, ymd => true
  | _, _ => false
  end.

Record NormalizedRow := {
  rowIndex : Z;
  rawDate : jsstring;
  rawValue : jsstring;
  dateIso : option jsstring;
  amount : option number
}.

(** *** Tokenizer *)

(** The scanning loop of [parseCsv]: the state is the rows finished so
    far, the fields of the row in progress, the field in progress and the
    [inQuotes] flag. A doubled quote inside quotes consumes two
    characters. *)
Fixpoint scanCsv (text : jsstring) (inQuotes : bool) (currentField : jsstring)
    (currentRow : list jsstring) (rows : list (list jsstring))
    : list (list jsstring) * list jsstring * jsstring :=
  match text with
  | [] => (rows, currentRow, currentField)
  | char :: rest =>
      if inQuotes then
        if char_eqb char DQUOTE then
          match rest with
          | nextChar :: rest' =>
              if char_eqb nextChar DQUOTE
              then scanCsv rest' true (currentField ++ [DQUOTE]) currentRow rows
              else scanCsv rest false currentField currentRow rows
          | [] => scanCsv rest false currentField currentRow rows
          end
        else scanCsv rest true (currentField ++ [char]) currentRow rows
      else if char_eqb char DQUOTE then
        scanCsv rest true currentField currentRow rows
      else if char_eqb char COMMA then
        scanCsv rest false [] (currentRow ++ [currentField]) rows
      else if char_eqb char LF then
        scanCsv rest false [] [] (rows ++ [currentRow ++ [currentField]])
      else if char_eqb char CR then
        scanCsv rest false currentField currentRow rows
      else scanCsv rest false (currentField ++ [char]) currentRow rows
  end.

Definition isEmpty {A} (l : list A) : bool :=
  match l with [] => true | _ => false end.

(** [row.some((cell) => cell.trim() !== '')] *)
Definition hasContent (row : list jsstring) : bool :=
  existsb (fun cell => negb (isEmpty (trim cell))) row.

Definition parseCsv (text : jsstring) : list (list jsstring) :=
  let '(rows, currentRow, currentField) := scanCsv text false [] [] [] in
  let rows :=
    if negb (isEmpty currentField) || negb (isEmpty currentRow)
    then rows ++ [currentRow ++ [currentField]] else rows in
  filter hasContent rows.

(** *** Date normalizer *)

Definition toIsoDate (year month day : number) : option jsstring :=
  let utcDate := Date_UTC year (sub month (ofZ 1)) day in
  if negb (eqb (getUTCFullYear utcDate) year)
     || negb (eqb (add (getUTCMonth utcDate) (ofZ 1)) month)
     || negb (eqb (getUTCDate utcDate) day)
  then None
  else match utcDate with
       | Some t => Some (hd [] (splitOn 84%N (toISOString t)))
       | None => None
       end.

Definition parseDateFromParts (parts : list jsstring) (format : DateFormat)
    : option jsstring :=
  match List.map trim parts with
  | [part1; part2; part3] =>
      if isEmpty part1 || isEmpty part2 || isEmpty part3 then None
      else if format_eqb format ymd && (List.length part1 =? 4)%nat then
        toIsoDate (Number part1) (Number part2) (Number part3)
      else if (format_eqb format mdy || format_eqb format dmy)
              && (List.length part3 =? 4)%nat then
        let month := if format_eqb format mdy then Number part1 else Number part2 in
        let day := if format_eqb format mdy then Number part2 else Number part1 in
        toIsoDate (Number part3) month day
      else if format_eqb format auto then
        if (List.length part1 =? 4)%nat then
          toIsoDate (Number part1) (Number part2) (Number part3)
        else if (List.length part3 =? 4)%nat then
          let first := Number part1 in
          let second := Number part2 in
          if ltb (ofZ 12) first && leb second (ofZ 12)
          then toIsoDate (Number part3) second first
          else toIsoDate (Number part3) first second
        else None
      else None
  | _ => None
  end.

(** [\d{lo,hi}] at the head of [s]: the digits taken and the rest. What
    follows such a group in the two patterns below is never a digit, so
    taking as many digits as allowed is what the matcher ends up with. *)
Fixpoint takeDigits (hi : nat) (s : jsstring) : jsstring * jsstring :=
  match hi, s with
  | S hi', c :: s' =>
      if isDigit c then let '(g, r) := takeDigits hi' s' in (c :: g, r)
      else ([], s)
  | _, _ => ([], s)
  end.

Definition digitGroup (lo hi : nat) (s : jsstring) : option (jsstring * jsstring) :=
  let '(g, r) := takeDigits hi s in
  if (lo <=? List.length g)%nat then Some (g, r) else None.

(** [[\/-]] *)
Definition dateSep (s : jsstring) : option jsstring :=
  match s with
  | c :: r => if char_eqb c SLASH || char_eqb c MINUS then Some r else None
  | [] => None
  end.

(** [^(\d{l1,h1})[\/-](\d{l2,h2})[\/-](\d{l3,h3})$] *)
Definition matchDate (l1 h1 l2 h2 l3 h3 : nat) (s : jsstring)
    : option (jsstring * jsstring * jsstring) :=
  match digitGroup l1 h1 s with
  | Some (g1, r1) =>
      match dateSep r1 with
      | Some r2 =>
          match digitGroup l2 h2 r2 with
          | Some (g2, r3) =>
              match dateSep r3 with
              | Some r4 =>
                  match digitGroup l3 h3 r4 with
                  | Some (g3, []) => Some (g1, g2, g3)
                  | _ => None
                  end
              | None => None
              end
          | None => None
          end
      | None => None
      end
  | None => None
  end.

Definition isoMatch := matchDate 4 4 1 2 1 2.
Definition numericMatch := matchDate 1 2 1 2 4 4.

Section DateParser.

(** [new Date(text)] is left to the host: [dateParse text] gives the
    local full year, month index and day of the month of the date it
    yields, or [None] when that date is invalid. *)
Variable dateParse : jsstring -> option (Z * Z * Z).

Definition normalizeDate (raw : jsstring) (format : DateFormat)
    : option jsstring :=
  let trimmed := trim raw in
  if isEmpty trimmed then None
  else
    match isoMatch trimmed with
    | Some (g1, g2, g3) => toIsoDate (Number g1) (Number g2) (Number g3)
    | None =>
        match numericMatch trimmed with
        | Some (g1, g2, g3) => parseDateFromParts [g1; g2; g3] format
        | None =>
            let altSeparators := splitOn DOT trimmed in
            let normalized :=
              if (List.length altSeparators =? 3)%nat
              then parseDateFromParts altSeparators format else None in
            match normalized with
            | Some (c :: iso) => Some (c :: iso)
            | _ =>
                match dateParse trimmed with
                | Some (y, m, d) =>
                    toIsoDate (ofZ y) (add (ofZ m) (ofZ 1)) (ofZ d)
                | None => None
                end
            end
        end
    end.

End DateParser.

(** *** Amount normalizer *)

(** [cleaned.replace(/[$,\s]/g, '')] *)
Definition stripSymbols (s : jsstring) : jsstring :=
  filter (fun c => negb (char_eqb c DOLLAR || char_eqb c COMMA || isWhiteSpace c)) s.

(** The text handed to [parseFloat] and the [isNegative] flag at that
    point; [None] when the trimmed input is empty. *)
Definition cleanAmount (raw : jsstring) : option (bool * jsstring) :=
  let cleaned := trim raw in
  if isEmpty cleaned then None
  else
    let '(isNegative, cleaned) :=
      if startsWith cleaned [LPAREN] && endsWith cleaned [RPAREN]
      then (true, slice1m1 cleaned) else (false, cleaned) in
    let cleaned := stripSymbols cleaned in
    let '(isNegative, cleaned) :=
      if startsWith cleaned [MINUS] then (true, slice1 cleaned)
      else (isNegative, cleaned) in
    Some (isNegative, cleaned).

Definition parseAmount (raw : jsstring) : option number :=
  match cleanAmount raw with
  | None => None
  | Some (isNegative, cleaned) =>
      let value := parseFloat cleaned in
      if isNaN value then None
      else Some (if isNegative then neg (abs value) else value)
  end.

(** *** Valid rows, deduplication and running balance *)

(** [!text] for a value of type [string | null]. *)
Definition falsy (text : option jsstring) : bool :=
  match text with
  | None | Some [] => true
  | Some (_ :: _) => false
  end.

Definition isNull {A} (o : option A) : bool :=
  match o with None => true | Some _ => false end.

Definition validRows (normalizedRows : list NormalizedRow) : list NormalizedRow :=
  filter (fun row => negb (falsy (dateIso row)) && negb (isNull (amount row)))
    normalizedRows.

(** A [Map] with string keys: entries in insertion order; setting an
    existing key replaces its value in place. *)
Section OrderedMap.
Variable V : Type.

Definition Map := list (jsstring * V).

Fixpoint Map_get (m : Map) (k : jsstring) : option V :=
  match m with
  | [] => None
  | (k', v) :: m' => if string_eqb k' k then Some v else Map_get m' k
  end.

Definition Map_has (m : Map) (k : jsstring) : bool :=
  match Map_get m k with Some _ => true | None => false end.

Fixpoint Map_set (m : Map) (k : jsstring) (v : V) : Map :=
  match m with
  | [] => [(k, v)]
  | (k', v') :: m' =>
      if string_eqb k' k then (k', v) :: m' else (k', v') :: Map_set m' k v
  end.

Definition Map_values (m : Map) : list V := List.map snd m.
End OrderedMap.

(** [Array.prototype.sort] with a comparator: the sort is stable, so for a
    comparator that is a total preorder the result is the one of this
    insertion sort. [Lt] stands for a negative comparator result, [Gt] for
    a positive one. *)
Section Sort.
Variable A : Type.
Variable compareFn : A -> A -> comparison.

Fixpoint insertSorted (x : A) (l : list A) : list A :=
  match l with
  | [] => [x]
  | y :: l' =>
      match compareFn x y with
      | Gt => y :: insertSorted x l'
      | _ => x :: l
      end
  end.

Fixpoint sort (l : list A) : list A :=
  match l with
  | [] => []
  | x :: l' => insertSorted x (sort l')
  end.
End Sort.

(** A row of [dedupedRows.rows]: a whole normalized row in balance mode, a
    date with its summed amount in transactions mode. *)
Inductive DedupedRow :=
| BalanceRow (row : NormalizedRow)
| DayTotal (dateIso : jsstring) (amount : number).

Definition rowDateIso (row : DedupedRow) : option jsstring :=
  match row with
  | BalanceRow r => dateIso r
  | DayTotal d _ => Some d
  end.

Definition rowAmount (row : DedupedRow) : option number :=
  match row with
  | BalanceRow r => amount r
  | DayTotal _ a => Some a
  end.

Record Deduped := {
  rows : list DedupedRow;
  duplicateCount : Z
}.

Section Dedup.

(** [a.localeCompare(b)] is the host's collation, known here only by
    the sign of its result. *)
Variable localeCompare : jsstring -> jsstring -> comparison.

Definition compareBalanceRows (a b : NormalizedRow) : comparison :=
  match dateIso a, dateIso b with
  | Some (c :: da), Some (c' :: db) => localeCompare (c :: da) (c' :: db)
  | _, _ => Eq
  end.

Definition balanceStep (st : Map NormalizedRow * Z) (row : NormalizedRow)
    : Map NormalizedRow * Z :=
  let '(map, duplicateCount) := st in
  match dateIso row with
  | Some (c :: d) =>
      let duplicateCount :=
        if Map_has map (c :: d) then duplicateCount + 1 else duplicateCount in
      (Map_set map (c :: d) row, duplicateCount)
  | _ => st
  end.

Definition transactionsStep (st : Map (jsstring * number) * Z)
    (row : NormalizedRow) : Map (jsstring * number) * Z :=
  let '(map, duplicateCount) := st in
  match dateIso row, amount row with
  | Some (c :: d), Some rowAmount =>
      let duplicateCount :=
        if Map_has map (c :: d) then duplicateCount + 1 else duplicateCount in
      let previous :=
        match Map_get map (c :: d) with
        | Some entry => snd entry
        | None => ofZ 0
        end in
      (Map_set map (c :: d) (c :: d, add previous rowAmount), duplicateCount)
  | _, _ => st
  end.

Definition dedupedRows (statementType : StatementType)
    (validRows : list NormalizedRow) : Deduped :=
  match statementType with
  | balance =>
      let '(map, duplicateCount) := fold_left balanceStep validRows ([], 0) in
      {| rows := List.map BalanceRow (sort compareBalanceRows (Map_values map));
         duplicateCount := duplicateCount |}
  | transactions =>
      let '(map, duplicateCount) := fold_left transactionsStep validRows ([], 0) in
      {| rows := List.map (fun e => DayTotal (fst e) (snd e))
                   (sort (fun a b => localeCompare (fst a) (fst b)) (Map_values map));
         duplicateCount := duplicateCount |}
  end.

End Dedup.

Definition startingBalance (statementType : StatementType)
    (startingBalanceInput : jsstring) : option number :=
  match statementType with
  | transactions => parseAmount startingBalanceInput
  | balance => None
  end.

(** The Date built by [new Date(text)], kept as its argument. *)
Inductive JSDate := NewDate (text : jsstring).

Record ImportEntry := {
  accountId : jsstring;
  entryAmount : number;
  date : JSDate
}.

Definition orZero (a : option number) : number :=
  match a with Some v => v | None => ofZ 0 end.
Definition orEmpty (t : option jsstring) : jsstring :=
  match t with Some v => v | None => [] end.

(** The mapping of transactions mode, with [runningBalance] threaded
    through the rows. *)
Fixpoint runningEntries (selectedAccountId : jsstring) (runningBalance : number)
    (rows : list DedupedRow) : list ImportEntry :=
  match rows with
  | [] => []
  | row :: rest =>
      let runningBalance := add runningBalance (orZero (rowAmount row)) in
      {| accountId := selectedAccountId;
         entryAmount := runningBalance;
         date := NewDate (orEmpty (rowDateIso row)) |}
      :: runningEntries selectedAccountId runningBalance rest
  end.

Definition importEntries (selectedAccountId : jsstring)
    (statementType : StatementType) (startingBalance : option number)
    (rows : list DedupedRow) : list ImportEntry :=
  if isEmpty selectedAccountId then []
  else
    match statementType with
    | balance =>
        List.map (fun row =>
          {| accountId := selectedAccountId;
             entryAmount := orZero (rowAmount row);
             date := NewDate (orEmpty (rowDateIso row)) |}) rows
    | transactions =>
        match startingBalance with
        | None => []
        | Some startingBalance =>
            runningEntries selectedAccountId startingBalance rows
        end
    end.

(** *** Column labels, column detection and row normalization *)

(** [s.includes(sub)] *)
Fixpoint includes (s sub : jsstring) : bool :=
  startsWith s sub
  || match s with
     | [] => false
     | _ :: s' => includes s' sub
     end.

(** [l.findIndex(p)]: the first index whose element satisfies [p], or -1;
    [i] is the index of the head of [l]. *)
Fixpoint findIndexFrom {A} (p : A -> bool) (l : list A) (i : Z) : Z :=
  match l with
  | [] => -1
  | x :: l' => if p x then i else findIndexFrom p l' (i + 1)
  end.

Definition findIndex {A} (p : A -> bool) (l : list A) : Z := findIndexFrom p l 0.

(** [l.map((x, index) => f x index)], [i] being the index of the head. *)
Fixpoint mapIndexed {A B} (f : A -> Z -> B) (l : list A) (i : Z) : list B :=
  match l with
  | [] => []
  | x :: l' => f x i :: mapIndexed f l' (i + 1)
  end.

(** The decimal digits of [n], most significant first, [fuel] bounding
    their number. *)
Fixpoint decimalDigits (fuel : nat) (n : Z) : jsstring :=
  match fuel with
  | O => []
  | S fuel' =>
      (if n <? 10 then [] else decimalDigits fuel' (n / 10))
      ++ [Z.to_N (48 + n mod 10)]
  end.

(** A non-negative integer as a template literal shows it. *)
Definition decimalString (n : Z) : jsstring :=
  decimalDigits (S (Z.to_nat (Z.log2 n))) n.

(** [row[index] ?? ''] *)
Definition cellAt (row : list jsstring) (index : Z) : jsstring :=
  if index <? 0 then []
  else match nth_error row (Z.to_nat index) with
       | Some cell => cell
       | None => []
       end.

Section Headers.

(** [toLowerCase] is the host's Unicode case mapping. *)
Variable toLowerCase : jsstring -> jsstring.

Definition normalizeHeader (value : jsstring) : jsstring :=
  toLowerCase (trim value).

Definition detectColumnIndex (labels matchers : list jsstring) : Z :=
  let normalized := List.map normalizeHeader labels in
  findIndex (fun label => existsb (fun matcher => includes label matcher) matchers)
    normalized.

Definition inBounds (prev : Z) (columnLabels : list jsstring) : bool :=
  (0 <=? prev) && (prev <? Z.of_nat (List.length columnLabels)).

(** The three state updaters of the detection effect. *)
Definition nextDateColumnIndex (columnLabels : list jsstring) (prev : Z) : Z :=
  if inBounds prev columnLabels then prev
  else
    let detected :=
      detectColumnIndex columnLabels
        [str "date"; str "posting"; str "transaction date"] in
    if 0 <=? detected then detected else 0.

Definition nextBalanceColumnIndex (columnLabels : list jsstring) (prev : Z) : Z :=
  if inBounds prev columnLabels then prev
  else
    let detected :=
      detectColumnIndex columnLabels
        [str "balance"; str "ending balance"; str "closing balance";
         str "running balance"] in
    if 0 <=? detected then detected
    else Z.min 1 (Z.of_nat (List.length columnLabels) - 1).

Definition nextAmountColumnIndex (columnLabels : list jsstring) (prev : Z) : Z :=
  if inBounds prev columnLabels then prev
  else
    let detected :=
      detectColumnIndex columnLabels
        [str "amount"; str "transaction"; str "debit"; str "credit";
         str "withdrawal"; str "deposit"] in
    if 0 <=? detected then detected
    else Z.min 1 (Z.of_nat (List.length columnLabels) - 1).

End Headers.

Record ColumnSelection := {
  dateColumnIndex : Z;
  balanceColumnIndex : Z;
  amountColumnIndex : Z
}.

(** The detection effect, run for the current labels and statement type
    on the current selection. *)
Definition detectColumns (toLowerCase : jsstring -> jsstring)
    (columnLabels : list jsstring) (statementType : StatementType)
    (selection : ColumnSelection) : ColumnSelection :=
  if isEmpty columnLabels then
    {| dateColumnIndex := -1; balanceColumnIndex := -1; amountColumnIndex := -1 |}
  else
    let dateIndex :=
      nextDateColumnIndex toLowerCase columnLabels (dateColumnIndex selection) in
    match statementType with
    | balance =>
        {| dateColumnIndex := dateIndex;
           balanceColumnIndex :=
             nextBalanceColumnIndex toLowerCase columnLabels
               (balanceColumnIndex selection);
           amountColumnIndex := amountColumnIndex selection |}
    | transactions =>
        {| dateColumnIndex := dateIndex;
           balanceColumnIndex := balanceColumnIndex selection;
           amountColumnIndex :=
             nextAmountColumnIndex toLowerCase columnLabels
               (amountColumnIndex selection) |}
    end.

Definition valueColumnIndex (statementType : StatementType)
    (selection : ColumnSelection) : Z :=
  match statementType with
  | balance => balanceColumnIndex selection
  | transactions => amountColumnIndex selection
  end.

Definition maxColumns (rawRows : list (list jsstring)) : Z :=
  fold_left (fun max row => Z.max max (Z.of_nat (List.length row))) rawRows 0.

Definition columnLabels (hasHeaderRow : bool) (rawRows : list (list jsstring))
    : list jsstring :=
  if maxColumns rawRows =? 0 then []
  else
    let headerRow :=
      if hasHeaderRow && negb (isEmpty rawRows) then hd [] rawRows else [] in
    List.map
      (fun index =>
         match option_map trim (nth_error headerRow index) with
         | Some (c :: header) => c :: header
         | _ => str "Column " ++ decimalString (Z.of_nat index + 1)
         end)
      (seq 0 (Z.to_nat (maxColumns rawRows))).

Definition dataRows (hasHeaderRow : bool) (rawRows : list (list jsstring))
    : list (list jsstring) :=
  if isEmpty rawRows then []
  else if hasHeaderRow then tl rawRows else rawRows.

Section RowNormalizer.

Variable dateParse : jsstring -> option (Z * Z * Z).

Definition normalizedRows (dataRows : list (list jsstring))
    (dateColumnIndex valueColumnIndex : Z) (dateFormat : DateFormat)
    (hasHeaderRow : bool) : list NormalizedRow :=
  if (dateColumnIndex <? 0) || (valueColumnIndex <? 0) then []
  else
    mapIndexed
      (fun row index =>
         let rawDate := cellAt row dateColumnIndex in
         let rawValue := cellAt row valueColumnIndex in
         {| rowIndex := if hasHeaderRow then index + 2 else index + 1;
            rawDate := rawDate;
            rawValue := rawValue;
            dateIso := normalizeDate dateParse rawDate dateFormat;
            amount := parseAmount rawValue |})
      dataRows 0.

End RowNormalizer.

(** *** Summary and import readiness *)

Record Summary := {
  totalRows : Z;
  validRowCount : Z;
  skippedRows : Z;
  uniqueDays : Z;
  summaryDuplicateCount : Z;
  dateRange : option (option jsstring * option jsstring)
}.

Definition summary (normalizedRows validRows : list NormalizedRow)
    (dedupedRows : Deduped) : option Summary :=
  if isEmpty normalizedRows then None
  else
    let skippedRows :=
      Z.of_nat (List.length normalizedRows) - Z.of_nat (List.length validRows) in
    let uniqueDays := Z.of_nat (List.length (rows dedupedRows)) in
    let dateRange :=
      match rows dedupedRows with
      | [] => None
      | first :: _ =>
          Some (rowDateIso first, rowDateIso (last (rows dedupedRows) first))
      end in
    Some {| totalRows := Z.of_nat (List.length normalizedRows);
            validRowCount := Z.of_nat (List.length validRows);
            skippedRows := skippedRows;
            uniqueDays := uniqueDays;
            summaryDuplicateCount := duplicateCount dedupedRows;
            dateRange := dateRange |}.

Definition hasValidStartingBalance (statementType : StatementType)
    (startingBalance : option number) : bool :=
  match statementType with
  | balance => true
  | transactions => negb (isNull startingBalance)
  end.

Definition canImport (selectedAccountId fileName : jsstring)
    (dateColumnIndex valueColumnIndex : Z) (importEntries : list ImportEntry)
    (hasValidStartingBalance isImporting : bool) : bool :=
  negb (isEmpty selectedAccountId) && negb (isEmpty fileName)
  && (0 <=? dateColumnIndex) && (0 <=? valueColumnIndex)
  && (0 <? Z.of_nat (List.length importEntries))
  && hasValidStartingBalance && negb isImporting.

(** ** Specification-side definitions *)

(** Quoting a field by the CSV convention: wrap it in double quotes and
    double every quote inside. *)
Definition escapeQuotes (field : jsstring) : jsstring :=
  flat_map (fun c => if char_eqb c DQUOTE then [DQUOTE; DQUOTE] else [c]) field.

Definition quoteField (field : jsstring) : jsstring :=
  DQUOTE :: escapeQuotes field ++ [DQUOTE].

Definition crFree (field : jsstring) : Prop := ~ In CR field.

(** The characters of [text] that lie inside quoted regions, a doubled
    quote counting as one quote character; [inQuotes] tells whether the
    text starts inside a quoted region. *)
Fixpoint quotedContent (text : jsstring) (inQuotes : bool) : jsstring :=
  match text with
  | [] => []
  | c :: rest =>
      if inQuotes then
        if char_eqb c DQUOTE then
          match rest with
          | c' :: rest' =>
              if char_eqb c' DQUOTE then DQUOTE :: quotedContent rest' true
              else quotedContent rest false
          | [] => []
          end
        else c :: quotedContent rest true
      else quotedContent rest (char_eqb c DQUOTE)
  end.

(** [x] is finite and its exact value is the rational [num / den]
    (for [0 < den]). *)
Definition represents (x : number) (num den : Z) : Prop :=
  match x with
  | S754_zero _ => num = 0
  | S754_finite s m e =>
      (if s then Z.neg m else Z.pos m) * 2 ^ Z.max e 0 * den
      = num * 2 ^ Z.max (- e) 0
  | _ => False
  end.

Definition allDigits (ds : jsstring) : Prop := Forall (fun c => isDigit c = true) ds.


(** Calendar validity of a year, month (1 to 12) and day. *)
Definition daysInMonth (Y M : Z) : Z :=
  match M with
  | 2 => 28 + InLeapYear Y
  | 4 | 6 | 9 | 11 => 30
  | _ => 31
  end.

Definition validCalendarDate (Y M D : Z) : Prop :=
  1 <= M <= 12 /\ 1 <= D <= daysInMonth Y M.



(** The date part of the ISO format. *)
Definition isoDateText (Y M D : Z) : jsstring :=
  isoYear Y ++ [MINUS] ++ padDigits 2 M ++ [MINUS] ++ padDigits 2 D.

(** One or two digits; a separator of a numeric date. *)
Definition shortDigits (ds : jsstring) : Prop :=
  allDigits ds /\ (1 <= List.length ds <= 2)%nat.

Definition isDateSep (c : char) : Prop := c = SLASH \/ c = MINUS.

(** A row that passes the filter of [validRows]. *)
Definition validRow (row : NormalizedRow) : Prop :=
  negb (falsy (dateIso row)) && negb (isNull (amount row)) = true.

Definition hasDate (d : jsstring) (row : NormalizedRow) : bool :=
  match dateIso row with
  | Some d' => string_eqb d' d
  | None => false
  end.

(** The rows dated [d], in input order. *)
Definition rowsOn (d : jsstring) (l : list NormalizedRow) : list NormalizedRow :=
  filter (hasDate d) l.

(** The amounts of the rows [l] added up in input order, from [start]. *)
Definition sumAmounts (start : number) (l : list NormalizedRow) : number :=
  fold_left (fun acc row => add acc (orZero (amount row))) l start.

(** The number of rows whose date was already seen, either in [seen] or
    in an earlier row. *)
Fixpoint repeatedDates (seen : list jsstring) (l : list NormalizedRow) : Z :=
  match l with
  | [] => 0
  | row :: l' =>
      match dateIso row with
      | Some d =>
          if existsb (string_eqb d) seen then 1 + repeatedDates seen l'
          else repeatedDates (seen ++ [d]) l'
      | None => repeatedDates seen l'
      end
  end.

Definition strictlyIncreasing (ds : list jsstring) : Prop :=
  StronglySorted (fun a b => strCompare a b = Lt) ds.

(** The amounts of deduplicated rows added up in order, from [start]. *)
Definition runningTotal (start : number) (l : list DedupedRow) : number :=
  fold_left (fun acc row => add acc (orZero (rowAmount row))) l start.

(** The keys of a map, in insertion order. *)
Definition keys (V : Type) (m : Map V) : list jsstring := List.map fst m.

(** The date under which a value of either deduplication map is filed. *)
Definition balanceKey (row : NormalizedRow) : jsstring := orEmpty (dateIso row).
Definition totalKey (entry : jsstring * number) : jsstring := fst entry.

(** The two negative markers of an amount text. *)
Definition enclosedInParens (raw : jsstring) : bool :=
  startsWith (trim raw) [LPAREN] && endsWith (trim raw) [RPAREN].

Definition leadingMinus (raw : jsstring) : bool :=
  startsWith
    (stripSymbols (if enclosedInParens raw then slice1m1 (trim raw) else trim raw))
    [MINUS].

(** A text cut at every newline and every line cut at every comma. *)
Definition splitLines (text : jsstring) : list (list jsstring) :=
  List.map (splitOn COMMA) (splitOn LF text).

(** The lines [lines] read while the row [currentRow] with the field
    [currentField] is in progress: the first field of the first line
    continues that field. *)
Definition resumeRow (currentRow : list jsstring) (currentField : jsstring)
    (lines : list (list jsstring)) : list (list jsstring) :=
  match lines with
  | (field :: fields) :: rest =>
      (currentRow ++ [currentField ++ field] ++ fields) :: rest
  | _ => [currentRow ++ [currentField]]
  end.

Definition notCR (c : char) : bool := negb (char_eqb c CR).

(** [lines] with [more] appended to the last field of the last line. *)
Definition extendLast (lines : list (list jsstring)) (more : jsstring)
    : list (list jsstring) :=
  match rev lines with
  | lastLine :: before =>
      rev before
      ++ [match rev lastLine with
          | field :: fields => rev fields ++ [field ++ more]
          | [] => [more]
          end]
  | [] => [[more]]
  end.

(** The test [detectColumnIndex] makes on a label. *)
Definition labelMatches (toLowerCase : jsstring -> jsstring)
    (matchers : list jsstring) (label : jsstring) : bool :=
  existsb (fun matcher => includes (normalizeHeader toLowerCase label) matcher)
    matchers.







(** The date [a] is not after the date [b], both given as year, month
    and day. *)
Definition notAfter (a b : Z * Z * Z) : Prop :=
  let '(y, m, d) := a in
  let '(y', m', d') := b in
  y < y' \/ (y = y' /\ (m < m' \/ (m = m' /\ d <= d'))).

(** A calendar date with a four-digit year, as the normalizer writes
    it. *)
Definition plainDate (text : jsstring) (Y M D : Z) : Prop :=
  text = isoDateText Y M D /\ 0 <= Y <= 9999 /\ validCalendarDate Y M D.

(** The same Number, sign of zero included. *)
Definition sameValue (x y : number) : bool :=
  match x, y with
  | S754_zero a, S754_zero b => Bool.eqb a b
  | S754_infinity a, S754_infinity b => Bool.eqb a b
  | S754_nan, S754_nan => true
  | S754_finite s m e, S754_finite s' m' e' =>
      Bool.eqb s s' && Pos.eqb m m' && Z.eqb e e'
  | _, _ => false
  end.

(** [p] holds of [lo], [lo + 1], ..., [lo + n - 1]. *)
Fixpoint holdsFrom (p : Z -> bool) (lo : Z) (n : nat) : bool :=
  match n with
  | O => true
  | S n' => p lo && holdsFrom p (lo + 1) n'
  end.

(** What is used of the Numbers of the integers from 0 to 9999, written
    with [w] digits. *)
Definition plainInteger (w : nat) (z : Z) : bool :=
  isFinite (ofZ z) && (truncate (ofZ z) =? z) && eqb (ofZ z) (ofZ z)
  && sameValue (Number (padDigits w z)) (ofZ z)
  && sameValue (sub (ofZ (z + 1)) (ofZ 1)) (ofZ z).

(** * Properties *)

Unset Implicit Arguments.

(** ** Strings *)

Lemma char_eqb_eq (a b : char) : char_eqb a b = true <-> a = b.
Proof. apply N.eqb_eq. Qed.

Lemma char_eqb_neq (a b : char) : char_eqb a b = false <-> a <> b.
Proof. apply N.eqb_neq. Qed.

Lemma char_eqb_refl (a : char) : char_eqb a a = true.
Proof. apply N.eqb_refl. Qed.

Lemma string_eqb_eq (a b : jsstring) : string_eqb a b = true <-> a = b.
Proof.
  revert b; induction a as [|x a IH]; intros [|y b]; simpl; split;
    try congruence; try reflexivity.
  - intros H. apply andb_true_iff in H as [Hx Hab].
    apply char_eqb_eq in Hx. apply IH in Hab. now subst.
  - intros H. injection H as -> ->. rewrite char_eqb_refl. now apply IH.
Qed.

Lemma string_eqb_refl (a : jsstring) : string_eqb a a = true.
Proof. now apply string_eqb_eq. Qed.

Lemma string_eqb_neq (a b : jsstring) : string_eqb a b = false <-> a <> b.
Proof.
  split.
  - intros H E. apply string_eqb_eq in E. congruence.
  - intros H. destruct (string_eqb a b) eqn:E; [|reflexivity].
    apply string_eqb_eq in E. contradiction.
Qed.

Lemma dropWhile_keeps {A} (p : A -> bool) (x : A) (l : list A) :
  In x l -> p x = false -> In x (dropWhile p l).
Proof.
  induction l as [|y l IH]; simpl; [tauto|].
  intros [->|Hin] Hp.
  - rewrite Hp. now left.
  - destruct (p y); [now apply IH | now right].
Qed.

Lemma trim_keeps (c : char) (s : jsstring) :
  In c s -> isWhiteSpace c = false -> In c (trim s).
Proof.
  intros Hin Hc. unfold trim, trimEnd, trimStart.
  apply in_rev. rewrite rev_involutive.
  apply dropWhile_keeps; [|assumption].
  apply in_rev. rewrite rev_involutive.
  now apply dropWhile_keeps.
Qed.

Lemma trim_nonempty (c : char) (s : jsstring) :
  In c s -> isWhiteSpace c = false -> isEmpty (trim s) = false.
Proof.
  intros Hin Hc. pose proof (trim_keeps c s Hin Hc) as H.
  destruct (trim s); [contradiction | reflexivity].
Qed.

(** ** Tokenizer *)

Lemma scanCsv_quoted (field : jsstring) :
  forall currentField currentRow rows,
    scanCsv (escapeQuotes field ++ [DQUOTE]) true currentField currentRow rows
    = (rows, currentRow, currentField ++ field).
Proof.
  induction field as [|c field IH]; intros f row rows.
  - simpl. now rewrite app_nil_r.
  - unfold escapeQuotes in *. simpl flat_map.
    destruct (char_eqb c DQUOTE) eqn:E.
    + apply char_eqb_eq in E. subst c. simpl.
      rewrite IH. now rewrite <- app_assoc.
    + simpl. rewrite E. rewrite IH. now rewrite <- app_assoc.
Qed.

Lemma parseCsv_quoteField (field : jsstring) (c : char) :
  In c field -> isWhiteSpace c = false ->
  parseCsv (quoteField field) = [[field]].
Proof.
  intros Hin Hc. unfold parseCsv, quoteField.
  cbn [scanCsv]. replace (char_eqb DQUOTE DQUOTE) with true by reflexivity.
  cbn [char_eqb N.eqb]. rewrite scanCsv_quoted. cbn [app].
  destruct field as [|x field]; [contradiction|].
  cbn [isEmpty negb orb app filter hasContent existsb].
  now rewrite (trim_nonempty c _ Hin Hc).
Qed.

(** C6. A field that contains a comma, a newline and a quote character,
    once quoted by the convention, is tokenized to exactly one row with
    exactly one field, equal to the original field. *)
Theorem tokenizer_round_trip (field : jsstring) :
  In COMMA field -> In LF field -> In DQUOTE field ->
  parseCsv (quoteField field) = [[field]].
Proof.
  intros Hcomma _ _. now apply parseCsv_quoteField with (c := COMMA).
Qed.

Lemma tokenizer_round_trip_witness :
  let field := [97; COMMA; 98; LF; DQUOTE; 99]%N in
  In COMMA field /\ In LF field /\ In DQUOTE field /\
  parseCsv (quoteField field) = [[field]].
Proof.
  cbv zeta.
  assert (Hc : In COMMA [97; COMMA; 98; LF; DQUOTE; 99]%N) by (simpl; tauto).
  assert (Hl : In LF [97; COMMA; 98; LF; DQUOTE; 99]%N) by (simpl; tauto).
  assert (Hq : In DQUOTE [97; COMMA; 98; LF; DQUOTE; 99]%N) by (simpl; tauto).
  exact (conj Hc (conj Hl (conj Hq (tokenizer_round_trip _ Hc Hl Hq)))).
Defined.

(** A carriage return reaches a field only from inside a quoted region:
    scanning a text whose quoted content has none, from a state whose
    fields have none, ends in such a state. *)
Lemma scanCsv_crFree (n : nat) :
  forall text inQuotes currentField currentRow rows,
    (List.length text <= n)%nat ->
    ~ In CR (quotedContent text inQuotes) ->
    crFree currentField -> Forall crFree currentRow ->
    Forall (Forall crFree) rows ->
    let '(rows', currentRow', currentField') :=
      scanCsv text inQuotes currentField currentRow rows in
    Forall (Forall crFree) rows' /\ Forall crFree currentRow'
    /\ crFree currentField'.
Proof.
  induction n as [|n IH]; intros text q f row rows Hlen Hq Hf Hrow Hrows.
  { destruct text; [simpl; auto | simpl in Hlen; lia]. }
  destruct text as [|c text]; [simpl; auto|].
  assert (Hsnoc : forall x, x <> CR -> crFree (f ++ [x])).
  { intros x Hx Hin. apply in_app_or in Hin as [Hin | [E | []]];
      [now apply Hf | congruence]. }
  assert (Hrow' : Forall crFree (row ++ [f])).
  { apply Forall_app. split; [assumption | now constructor]. }
  simpl in Hlen. cbn [scanCsv quotedContent] in *.
  destruct q.
  - destruct (char_eqb c DQUOTE) eqn:Ec.
    + destruct text as [|c' text'].
      * simpl. auto.
      * destruct (char_eqb c' DQUOTE) eqn:Ec'.
        -- apply IH; try assumption; [simpl in Hlen; lia | |].
           ++ intros H. apply Hq. now right.
           ++ apply Hsnoc. discriminate.
        -- apply IH; try assumption. lia.
    + apply IH; try assumption; [lia | |].
      * intros H. apply Hq. now right.
      * apply Hsnoc. intros ->. apply Hq. now left.
  - destruct (char_eqb c DQUOTE); [apply IH; try assumption; lia|].
    destruct (char_eqb c COMMA);
      [apply IH; try assumption; [lia | intros []]|].
    destruct (char_eqb c LF).
    { apply IH; try assumption; [lia | intros [] | constructor |].
      apply Forall_app. split; [assumption | now repeat constructor]. }
    destruct (char_eqb c CR) eqn:Ecr; [apply IH; try assumption; lia|].
    apply IH; try assumption; [lia|].
    apply Hsnoc. intros ->. now rewrite char_eqb_refl in Ecr.
Qed.

(** C7, as the code has it. Carriage returns are dropped outside quoted
    regions only: when no carriage return occurs inside a quoted region of
    the text, no field of any row contains one. *)
Theorem carriage_return_ignored_outside_quotes (text : jsstring) :
  ~ In CR (quotedContent text false) ->
  forall row field,
    In row (parseCsv text) -> In field row -> ~ In CR field.
Proof.
  intros Hq row field Hrow Hfield.
  unfold parseCsv in Hrow.
  pose proof (scanCsv_crFree (List.length text) text false [] [] []
                (le_n _) Hq) as H.
  destruct (scanCsv text false [] [] []) as [[rows currentRow] currentField].
  destruct H as (Hrows & Hcur & Hf);
    [intros [] | constructor | constructor |].
  apply filter_In in Hrow as [Hrow _].
  assert (Hall : Forall (Forall crFree) (rows ++ [currentRow ++ [currentField]])).
  { apply Forall_app. split; [assumption|].
    constructor; [|constructor].
    apply Forall_app. split; [assumption | now constructor]. }
  assert (Hin : In row (rows ++ [currentRow ++ [currentField]])).
  { destruct (negb (isEmpty currentField) || negb (isEmpty currentRow));
      [assumption | apply in_or_app; now left]. }
  rewrite Forall_forall in Hall. specialize (Hall row Hin).
  rewrite Forall_forall in Hall. exact (Hall field Hfield).
Qed.

Lemma carriage_return_ignored_outside_quotes_witness :
  let text := [97; CR; LF; DQUOTE; 98; COMMA; DQUOTE; CR; LF; 99; CR]%N in
  ~ In CR (quotedContent text false) /\
  forall row field, In row (parseCsv text) -> In field row -> ~ In CR field.
Proof.
  cbv zeta.
  assert (Hq : ~ In CR (quotedContent
                          [97; CR; LF; DQUOTE; 98; COMMA; DQUOTE; CR; LF; 99; CR]%N
                          false)).
  { simpl. unfold CR, COMMA. intuition discriminate. }
  exact (conj Hq (carriage_return_ignored_outside_quotes _ Hq)).
Defined.

(** C7, as stated, fails: inside a quoted region a carriage return is
    appended to the field like any other character. *)
Lemma carriage_return_kept_inside_quotes :
  parseCsv [DQUOTE; 97; CR; 98; DQUOTE]%N = [[[97; CR; 98]%N]]
  /\ In CR [97; CR; 98]%N.
Proof. split; [reflexivity | simpl; tauto]. Qed.

(** ** Numbers *)







(** ** Digits and numerals *)

Lemma digit_cases (c : char) :
  isDigit c = true ->
  In c [48; 49; 50; 51; 52; 53; 54; 55; 56; 57]%N.
Proof.
  unfold isDigit. intros H.
  apply andb_true_iff in H as [Hlo Hhi].
  apply Z.leb_le in Hlo, Hhi.
  assert (E : c = N.of_nat (Z.to_nat (Z.of_N c))) by lia.
  assert (C : (Z.of_N c = 48 \/ Z.of_N c = 49 \/ Z.of_N c = 50 \/ Z.of_N c = 51
               \/ Z.of_N c = 52 \/ Z.of_N c = 53 \/ Z.of_N c = 54
               \/ Z.of_N c = 55 \/ Z.of_N c = 56 \/ Z.of_N c = 57)) by lia.
  rewrite E.
  repeat (destruct C as [C|C]; [rewrite C; simpl; tauto|]).
  rewrite C. simpl. tauto.
Qed.

(** Replace a digit character by each of its ten possible values. *)
Ltac digit_enum H :=
  apply digit_cases in H; simpl in H;
  repeat (destruct H as [H|H]; [symmetry in H; subst|]); try contradiction.

Lemma digit_not_white (c : char) : isDigit c = true -> isWhiteSpace c = false.
Proof. intros H. digit_enum H; reflexivity. Qed.


Lemma digit_not_dot (c : char) : isDigit c = true -> char_eqb c DOT = false.
Proof. intros H. digit_enum H; reflexivity. Qed.










(** ** Amount normalizer *)

Lemma cleanAmount_flag (raw : jsstring) (isNegative : bool) (cleaned : jsstring) :
  cleanAmount raw = Some (isNegative, cleaned) ->
  isNegative = enclosedInParens raw || leadingMinus raw.
Proof.
  unfold cleanAmount, leadingMinus, enclosedInParens.
  destruct (isEmpty (trim raw)); [discriminate|].
  destruct (startsWith (trim raw) [LPAREN] && endsWith (trim raw) [RPAREN]).
  - destruct (startsWith _ [MINUS]); intros [= <- _]; reflexivity.
  - destruct (startsWith _ [MINUS]); intros [= <- _]; reflexivity.
Qed.

Lemma cleanAmount_marked (raw : jsstring) :
  enclosedInParens raw || leadingMinus raw = true ->
  exists cleaned, cleanAmount raw = Some (true, cleaned).
Proof.
  unfold cleanAmount, leadingMinus, enclosedInParens.
  destruct (trim raw) as [|c t] eqn:Et; [discriminate|].
  cbn [isEmpty].
  destruct (startsWith (c :: t) [LPAREN] && endsWith (c :: t) [RPAREN]).
  - intros _. destruct (startsWith _ [MINUS]); eauto.
  - cbn [orb]. intros ->. eauto.
Qed.

(** C5. ["(1,234.50)"] is -1234.50, ["-$45.00"] is -45.00, a blank string
    is absent; and whenever a negative marker is present (enclosing
    parentheses, or a leading minus after stripping) the result is minus
    the absolute value of the number parsed from the remaining text,
    whatever sign that number has (as in ["--5"]). *)
Theorem amount_negative_markers :
  (exists v, parseAmount (str "(1,234.50)") = Some v /\ represents v (-123450) 100)
  /\ (exists v, parseAmount (str "-$45.00") = Some v /\ represents v (-4500) 100)
  /\ parseAmount (str "  ") = None
  /\ (exists v, parseAmount (str "--5") = Some v /\ represents v (-5) 1)
  /\ forall raw,
       enclosedInParens raw || leadingMinus raw = true ->
       exists cleaned,
         cleanAmount raw = Some (true, cleaned)
         /\ parseAmount raw
            = if isNaN (parseFloat cleaned) then None
              else Some (neg (abs (parseFloat cleaned))).
Proof.
  split; [eexists; split; [vm_compute; reflexivity | vm_compute; reflexivity]|].
  split; [eexists; split; [vm_compute; reflexivity | vm_compute; reflexivity]|].
  split; [reflexivity|].
  split; [eexists; split; [vm_compute; reflexivity | vm_compute; reflexivity]|].
  intros raw H. destruct (cleanAmount_marked raw H) as [cleaned Hc].
  exists cleaned. split; [assumption|].
  unfold parseAmount. rewrite Hc. reflexivity.
Qed.

Lemma amount_negative_markers_witness :
  enclosedInParens (str "(-5)") || leadingMinus (str "(-5)") = true
  /\ exists cleaned,
       cleanAmount (str "(-5)") = Some (true, cleaned)
       /\ parseAmount (str "(-5)")
          = if isNaN (parseFloat cleaned) then None
            else Some (neg (abs (parseFloat cleaned))).
Proof.
  split; [reflexivity|].
  apply (proj2 (proj2 (proj2 (proj2 amount_negative_markers)))).
  reflexivity.
Defined.



(** ** Starting balance *)

(** C8. In transactions mode, a starting balance text that does not parse
    to a number yields no import entries, whatever the deduplicated rows
    are. *)
Theorem no_entries_without_starting_balance
    (selectedAccountId startingBalanceInput : jsstring) (rows : list DedupedRow) :
  parseAmount startingBalanceInput = None ->
  importEntries selectedAccountId transactions
    (startingBalance transactions startingBalanceInput) rows = [].
Proof.
  intros H. unfold importEntries, startingBalance. rewrite H.
  now destruct (isEmpty selectedAccountId).
Qed.

Lemma no_entries_without_starting_balance_witness :
  parseAmount (str "n/a") = None
  /\ importEntries (str "acct-1") transactions
       (startingBalance transactions (str "n/a"))
       [DayTotal (str "2024-01-01") (ofZ 50)] = [].
Proof.
  assert (H : parseAmount (str "n/a") = None) by reflexivity.
  exact (conj H (no_entries_without_starting_balance _ _ _ H)).
Defined.

(** ** Calendar *)

Lemma DayFromYear_step (y : Z) :
  DayFromYear (y + 1) = DayFromYear y + DaysInYear y.
Proof.
  unfold DayFromYear, DaysInYear, InLeapYear.
  assert (H4 : (y mod 100) mod 4 = y mod 4)
    by (apply Z.mod_mod_divide; exists 25; reflexivity).
  assert (H100 : (y mod 400) mod 100 = y mod 100)
    by (apply Z.mod_mod_divide; exists 4; reflexivity).
  assert (A : (y + 1 - 1969) / 4
              = (y - 1969) / 4 + (if y mod 4 =? 0 then 1 else 0)).
  { destruct (Z.eqb_spec (y mod 4) 0); Z.div_mod_to_equations; lia. }
  assert (B : (y + 1 - 1901) / 100
              = (y - 1901) / 100 + (if y mod 100 =? 0 then 1 else 0)).
  { destruct (Z.eqb_spec (y mod 100) 0); Z.div_mod_to_equations; lia. }
  assert (C : (y + 1 - 1601) / 400
              = (y - 1601) / 400 + (if y mod 400 =? 0 then 1 else 0)).
  { destruct (Z.eqb_spec (y mod 400) 0); Z.div_mod_to_equations; lia. }
  assert (I4 : y mod 100 = 0 -> y mod 4 = 0)
    by (intros E; rewrite E in H4; symmetry; exact H4).
  assert (I100 : y mod 400 = 0 -> y mod 100 = 0)
    by (intros E; rewrite E in H100; symmetry; exact H100).
  rewrite A, B, C.
  destruct (Z.eqb_spec (y mod 4) 0), (Z.eqb_spec (y mod 100) 0),
    (Z.eqb_spec (y mod 400) 0); cbn [andb orb negb]; lia.
Qed.

(** [YearFromDay d] is the year that contains day [d]. *)
Lemma YearFromDay_bracket (d : Z) :
  DayFromYear (YearFromDay d) <= d < DayFromYear (YearFromDay d + 1).
Proof.
  unfold YearFromDay.
  set (y0 := 1970 + 400 * d / 146097).
  assert (H0 : 146097 * (y0 - 1970) <= 400 * d
               < 146097 * (y0 - 1970) + 146097).
  { subst y0. Z.div_mod_to_equations. lia. }
  clearbody y0.
  assert (Hlo : DayFromYear (y0 - 1) <= d).
  { unfold DayFromYear. Z.div_mod_to_equations. lia. }
  assert (Hhi : d < DayFromYear (y0 + 1 + 1)).
  { unfold DayFromYear. Z.div_mod_to_equations. lia. }
  destruct (Z.leb_spec (DayFromYear (y0 + 1)) d).
  - lia.
  - destruct (Z.leb_spec (DayFromYear y0) d).
    + lia.
    + replace (y0 - 1 + 1) with y0 by lia. lia.
Qed.

Lemma InLeapYear_cases (y : Z) : InLeapYear y = 0 \/ InLeapYear y = 1.
Proof. unfold InLeapYear. destruct (_ && _); auto. Qed.

Lemma DayWithinYear_range (t : Z) :
  0 <= DayWithinYear t < 365 + InLeapYear (YearFromTime t).
Proof.
  unfold DayWithinYear, YearFromTime.
  pose proof (YearFromDay_bracket (Day t)) as H.
  rewrite DayFromYear_step in H. unfold DaysInYear in H. lia.
Qed.

(** The UTC getters of any time value give a real calendar date. *)
Lemma getters_valid (t : Z) :
  0 <= MonthFromTime t <= 11
  /\ validCalendarDate (YearFromTime t) (MonthFromTime t + 1) (DateFromTime t).
Proof.
  pose proof (DayWithinYear_range t) as Hd.
  unfold validCalendarDate, daysInMonth, DateFromTime, MonthFromTime.
  set (leap := InLeapYear (YearFromTime t)) in *.
  set (d := DayWithinYear t) in *.
  assert (Hl : leap = 0 \/ leap = 1) by apply InLeapYear_cases.
  clearbody leap d.
  repeat match goal with
         | |- context [?a <? ?b] => destruct (Z.ltb_spec a b)
         end;
    destruct Hl; subst leap; cbn; lia.
Qed.

Lemma add_month_one (m : Z) :
  0 <= m <= 11 -> add (ofZ m) (ofZ 1) = ofZ (m + 1).
Proof.
  intros H.
  assert (C : m = 0 \/ m = 1 \/ m = 2 \/ m = 3 \/ m = 4 \/ m = 5 \/ m = 6
              \/ m = 7 \/ m = 8 \/ m = 9 \/ m = 10 \/ m = 11) by lia.
  repeat (destruct C as [C|C]; [subst m; reflexivity|]).
  subst m. reflexivity.
Qed.

Lemma splitOn_nonempty (sep : char) (s : jsstring) : splitOn sep s <> [].
Proof.
  destruct s as [|c s]; simpl; [discriminate|].
  destruct (char_eqb c sep); [discriminate|].
  destruct (splitOn sep s); discriminate.
Qed.

Lemma splitOn_hd (sep : char) (a b : jsstring) :
  ~ In sep a -> hd [] (splitOn sep (a ++ sep :: b)) = a.
Proof.
  induction a as [|c a IH]; intros Hnot; simpl.
  - now rewrite char_eqb_refl.
  - assert (Hc : char_eqb c sep = false).
    { apply char_eqb_neq. intros ->. apply Hnot. now left. }
    rewrite Hc.
    assert (IH' := IH (fun H => Hnot (or_intror H))).
    pose proof (splitOn_nonempty sep (a ++ sep :: b)) as Hne.
    destruct (splitOn sep (a ++ sep :: b)); [contradiction|].
    simpl in *. now subst.
Qed.

Lemma padDigits_digits (w : nat) :
  forall n c, In c (padDigits w n) -> isDigit c = true.
Proof.
  induction w as [|w IH]; intros n c Hin; cbn [padDigits] in Hin;
    [contradiction|].
  apply in_app_or in Hin as [Hin | [<- | []]].
  - now apply IH in Hin.
  - unfold isDigit.
    pose proof (Z.mod_pos_bound n 10 eq_refl) as Hb.
    rewrite Z2N.id by lia.
    apply andb_true_iff. split; apply Z.leb_le; lia.
Qed.

Lemma isoDateText_no_T (Y M D : Z) : ~ In 84%N (isoDateText Y M D).
Proof.
  assert (Hd : forall w n, ~ In 84%N (padDigits w n)).
  { intros w n Hin. apply padDigits_digits in Hin. discriminate. }
  unfold isoDateText. intros Hin.
  apply in_app_or in Hin as [Hin|Hin].
  { unfold isoYear in Hin. destruct ((0 <=? Y) && (Y <=? 9999)).
    - now apply Hd in Hin.
    - destruct Hin as [Hin|Hin]; [destruct (Y <? 0); discriminate|].
      now apply Hd in Hin. }
  cbn [app] in Hin. destruct Hin as [Hin|Hin]; [discriminate|].
  apply in_app_or in Hin as [Hin|Hin]; [now apply Hd in Hin|].
  destruct Hin as [Hin|Hin]; [discriminate|].
  now apply Hd in Hin.
Qed.

Lemma toISOString_date_part (t : Z) :
  hd [] (splitOn 84%N (toISOString t))
  = isoDateText (YearFromTime t) (MonthFromTime t + 1) (DateFromTime t).
Proof.
  unfold toISOString.
  match goal with
  | |- context [str "T" ++ ?r] =>
      replace (isoYear (YearFromTime t) ++ [MINUS]
               ++ padDigits 2 (MonthFromTime t + 1) ++ [MINUS]
               ++ padDigits 2 (DateFromTime t) ++ str "T" ++ r)
        with (isoDateText (YearFromTime t) (MonthFromTime t + 1) (DateFromTime t)
              ++ 84%N :: r)
  end.
  - apply splitOn_hd, isoDateText_no_T.
  - unfold isoDateText. rewrite <- !app_assoc. reflexivity.
Qed.

(** ** Date normalizer *)

Lemma toIsoDate_Some (year month day : number) (iso : jsstring) :
  toIsoDate year month day = Some iso ->
  exists t,
    Date_UTC year (sub month (ofZ 1)) day = Some t
    /\ eqb (ofZ (YearFromTime t)) year = true
    /\ eqb (add (ofZ (MonthFromTime t)) (ofZ 1)) month = true
    /\ eqb (ofZ (DateFromTime t)) day = true
    /\ iso = isoDateText (YearFromTime t) (MonthFromTime t + 1) (DateFromTime t).
Proof.
  unfold toIsoDate.
  destruct (Date_UTC year (sub month (ofZ 1)) day) as [t|].
  - cbn [getUTCFullYear getUTCMonth getUTCDate].
    destruct (eqb (ofZ (YearFromTime t)) year) eqn:Ey; [|discriminate].
    destruct (eqb (add (ofZ (MonthFromTime t)) (ofZ 1)) month) eqn:Em;
      [|discriminate].
    destruct (eqb (ofZ (DateFromTime t)) day) eqn:Ed; [|discriminate].
    cbn [negb orb]. intros [= <-].
    exists t. repeat (split; [assumption || reflexivity|]).
    apply toISOString_date_part.
  - cbn [getUTCFullYear]. discriminate.
Qed.


Lemma parseDateFromParts_from_toIsoDate (parts : list jsstring)
    (format : DateFormat) (iso : jsstring) :
  parseDateFromParts parts format = Some iso ->
  exists year month day, toIsoDate year month day = Some iso.
Proof.
  unfold parseDateFromParts.
  destruct (List.map trim parts) as [|p1 [|p2 [|p3 [|p4 rest]]]];
    try discriminate.
  destruct (isEmpty p1 || isEmpty p2 || isEmpty p3); [discriminate|].
  destruct (format_eqb format ymd && _); [eauto|].
  destruct ((format_eqb format mdy || format_eqb format dmy) && _); [eauto|].
  destruct (format_eqb format auto); [|discriminate].
  destruct (List.length p1 =? 4)%nat; [eauto|].
  destruct (List.length p3 =? 4)%nat; [|discriminate].
  destruct (ltb (ofZ 12) (Number p1) && leb (Number p2) (ofZ 12)); eauto.
Qed.


Section DateClaims.

Variable dateParse : jsstring -> option (Z * Z * Z).

Lemma normalizeDate_from_toIsoDate (raw : jsstring) (format : DateFormat)
    (iso : jsstring) :
  normalizeDate dateParse raw format = Some iso ->
  exists year month day, toIsoDate year month day = Some iso.
Proof.
  unfold normalizeDate.
  destruct (isEmpty (trim raw)); [discriminate|].
  destruct (isoMatch (trim raw)) as [[[g1 g2] g3]|]; [eauto|].
  destruct (numericMatch (trim raw)) as [[[g1 g2] g3]|].
  { apply parseDateFromParts_from_toIsoDate. }
  destruct (List.length (splitOn DOT (trim raw)) =? 3)%nat.
  - destruct (parseDateFromParts (splitOn DOT (trim raw)) format)
      as [[|c iso']|] eqn:E.
    + destruct (dateParse (trim raw)) as [[[y m] d]|]; [eauto|discriminate].
    + intros [= <-]. now apply parseDateFromParts_from_toIsoDate in E.
    + destruct (dateParse (trim raw)) as [[[y m] d]|]; [eauto|discriminate].
  - destruct (dateParse (trim raw)) as [[[y m] d]|]; [eauto|discriminate].
Qed.



End DateClaims.



Lemma takeDigits_app (ds : jsstring) :
  forall n rest,
    allDigits ds -> (List.length ds <= n)%nat ->
    match rest with [] => True | c :: _ => isDigit c = false end ->
    takeDigits n (ds ++ rest) = (ds, rest).
Proof.
  induction ds as [|c ds IH]; intros n rest Hds Hlen Hrest.
  - destruct n, rest; simpl; try reflexivity. now rewrite Hrest.
  - inversion Hds as [|? ? Hc Hds']; subst.
    destruct n as [|n]; [simpl in Hlen; lia|].
    simpl. rewrite Hc. rewrite IH; [reflexivity | assumption | | assumption].
    simpl in Hlen. lia.
Qed.

Lemma trimStart_id (c : char) (s : jsstring) :
  isWhiteSpace c = false -> trimStart (c :: s) = c :: s.
Proof. intros H. unfold trimStart. simpl. now rewrite H. Qed.

Lemma trimEnd_id (s : jsstring) (c : char) :
  isWhiteSpace c = false -> trimEnd (s ++ [c]) = s ++ [c].
Proof.
  intros H. unfold trimEnd. rewrite rev_app_distr. simpl. rewrite H.
  simpl. now rewrite rev_involutive.
Qed.

(** Trimming leaves a text alone when it starts and ends with digits. *)
Lemma trim_digit_ends (a mid z : jsstring) :
  allDigits a -> a <> [] -> allDigits z -> z <> [] ->
  trim (a ++ mid ++ z) = a ++ mid ++ z.
Proof.
  intros Ha Hna Hz Hnz. unfold trim.
  destruct Ha as [|c a Hc Ha]; [congruence|].
  cbn [app]. rewrite (trimStart_id c _ (digit_not_white c Hc)).
  destruct (exists_last Hnz) as (z' & l & ->).
  assert (Hl : isDigit l = true).
  { unfold allDigits in Hz. rewrite Forall_forall in Hz.
    apply Hz, in_or_app. right. now left. }
  replace (c :: a ++ mid ++ z' ++ [l]) with ((c :: a ++ mid ++ z') ++ [l])
    by (cbn [app]; now rewrite <- !app_assoc).
  apply trimEnd_id, digit_not_white, Hl.
Qed.

Lemma trim_digits (ds : jsstring) : allDigits ds -> trim ds = ds.
Proof.
  intros H. destruct ds as [|c ds]; [reflexivity|].
  unfold trim.
  inversion H as [|? ? Hc Hds]; subst.
  rewrite (trimStart_id c _ (digit_not_white c Hc)).
  assert (Hne : c :: ds <> []) by discriminate.
  destruct (exists_last Hne) as (z' & l & E). rewrite E.
  apply trimEnd_id, digit_not_white.
  unfold allDigits in H. rewrite Forall_forall in H.
  apply H. rewrite E. apply in_or_app. right. now left.
Qed.

Lemma dateSep_not_digit (c : char) : isDateSep c -> isDigit c = false.
Proof. intros [-> | ->]; reflexivity. Qed.

Lemma dateSep_cons (c : char) (r : jsstring) :
  isDateSep c -> dateSep (c :: r) = Some r.
Proof. intros [-> | ->]; reflexivity. Qed.

Lemma numericMatch_parts (A B Y : jsstring) (sep1 sep2 : char) :
  shortDigits A -> shortDigits B -> allDigits Y -> List.length Y = 4%nat ->
  isDateSep sep1 -> isDateSep sep2 ->
  let text := A ++ [sep1] ++ B ++ [sep2] ++ Y in
  isoMatch text = None /\ numericMatch text = Some (A, B, Y).
Proof.
  intros [HA HlA] [HB HlB] HY HlY H1 H2. cbv zeta.
  pose proof (dateSep_not_digit _ H1) as N1.
  pose proof (dateSep_not_digit _ H2) as N2.
  unfold isoMatch, numericMatch, matchDate, digitGroup.
  rewrite (takeDigits_app A 4 ([sep1] ++ B ++ [sep2] ++ Y) HA ltac:(lia) N1).
  rewrite (takeDigits_app A 2 ([sep1] ++ B ++ [sep2] ++ Y) HA ltac:(lia) N1).
  split.
  - destruct (Nat.leb_spec 4 (List.length A)); [lia | reflexivity].
  - destruct (Nat.leb_spec 1 (List.length A)); [|lia].
    cbn [app]. rewrite (dateSep_cons _ _ H1).
    rewrite (takeDigits_app B 2 (sep2 :: Y) HB ltac:(lia) N2).
    destruct (Nat.leb_spec 1 (List.length B)); [|lia].
    rewrite (dateSep_cons _ _ H2).
    rewrite <- (app_nil_r Y) at 1.
    rewrite (takeDigits_app Y 4 [] HY ltac:(lia) I).
    rewrite HlY. reflexivity.
Qed.

(** On one or two digits, the comparisons with 12 made on Numbers agree
    with the comparisons of the digits' value. *)
Lemma shortDigits_compare (ds : jsstring) :
  shortDigits ds ->
  ltb (ofZ 12) (Number ds) = (12 <? digitsVal ds)
  /\ leb (Number ds) (ofZ 12) = (digitsVal ds <=? 12).
Proof.
  intros [Hds Hlen].
  destruct ds as [|a [|b [|c ds]]]; simpl in Hlen; try lia.
  - inversion Hds as [|? ? Ha _]; subst.
    digit_enum Ha; vm_compute; split; reflexivity.
  - inversion Hds as [|? ? Ha Hds']; subst.
    inversion Hds' as [|? ? Hb _]; subst.
    digit_enum Ha; digit_enum Hb; vm_compute; split; reflexivity.
Qed.

Lemma auto_rule_parts (p1 p2 p3 : jsstring) :
  List.length (trim p1) <> 4%nat ->
  parseDateFromParts [p1; p2; p3] auto
  = if ltb (ofZ 12) (Number (trim p1)) && leb (Number (trim p2)) (ofZ 12)
    then parseDateFromParts [p1; p2; p3] dmy
    else parseDateFromParts [p1; p2; p3] mdy.
Proof.
  intros Hlen. unfold parseDateFromParts. cbn [List.map].
  destruct (isEmpty (trim p1) || isEmpty (trim p2) || isEmpty (trim p3)).
  { now destruct (_ && _). }
  cbn [format_eqb andb orb].
  destruct (Nat.eqb_spec (List.length (trim p1)) 4); [contradiction|].
  destruct (List.length (trim p3) =? 4)%nat; now destruct (_ && _).
Qed.

Section AutoPolicy.

Variable dateParse : jsstring -> option (Z * Z * Z).

Lemma numeric_date_policies (A B Y : jsstring) (sep1 sep2 : char) :
  shortDigits A -> shortDigits B -> allDigits Y -> List.length Y = 4%nat ->
  isDateSep sep1 -> isDateSep sep2 ->
  forall format,
    normalizeDate dateParse (A ++ [sep1] ++ B ++ [sep2] ++ Y) format
    = parseDateFromParts [A; B; Y] format.
Proof.
  intros HA HB HY HlY H1 H2 format.
  destruct (numericMatch_parts A B Y sep1 sep2 HA HB HY HlY H1 H2)
    as [Hiso Hnum].
  unfold normalizeDate.
  assert (HnA : A <> []) by (destruct HA as [_ Hl]; destruct A; simpl in Hl;
                             [lia | discriminate]).
  assert (HnY : Y <> []) by (destruct Y; [discriminate | discriminate]).
  pose proof (trim_digit_ends A ([sep1] ++ B ++ [sep2]) Y (proj1 HA) HnA
                HY HnY) as Htrim.
  rewrite <- !app_assoc in Htrim. rewrite Htrim, Hiso, Hnum.
  destruct A; [congruence | reflexivity].
Qed.

(** C4. Under the auto policy a three-part date whose first part is not
    four characters long is read as day-month-year when the first part
    exceeds 12 and the second does not, and as month-day-year otherwise;
    for the numeric form A/B/YYYY the comparison is on the values of A
    and B. ["13/05/2024"] takes the day-month-year branch and
    ["05/13/2024"] the month-day-year branch, both giving 2024-05-13. *)
Theorem auto_policy_disambiguation :
  (forall p1 p2 p3,
      List.length (trim p1) <> 4%nat ->
      parseDateFromParts [p1; p2; p3] auto
      = if ltb (ofZ 12) (Number (trim p1)) && leb (Number (trim p2)) (ofZ 12)
        then parseDateFromParts [p1; p2; p3] dmy
        else parseDateFromParts [p1; p2; p3] mdy)
  /\ (forall A B Y sep1 sep2,
         shortDigits A -> shortDigits B ->
         allDigits Y -> List.length Y = 4%nat ->
         isDateSep sep1 -> isDateSep sep2 ->
         let text := A ++ [sep1] ++ B ++ [sep2] ++ Y in
         normalizeDate dateParse text dmy
         = toIsoDate (Number Y) (Number B) (Number A)
         /\ normalizeDate dateParse text mdy
            = toIsoDate (Number Y) (Number A) (Number B)
         /\ normalizeDate dateParse text auto
            = if (12 <? digitsVal A) && (digitsVal B <=? 12)
              then normalizeDate dateParse text dmy
              else normalizeDate dateParse text mdy)
  /\ (normalizeDate dateParse (str "13/05/2024") auto = Some (str "2024-05-13")
      /\ normalizeDate dateParse (str "13/05/2024") dmy = Some (str "2024-05-13")
      /\ normalizeDate dateParse (str "13/05/2024") mdy = None)
  /\ (normalizeDate dateParse (str "05/13/2024") auto = Some (str "2024-05-13")
      /\ normalizeDate dateParse (str "05/13/2024") mdy = Some (str "2024-05-13")
      /\ normalizeDate dateParse (str "05/13/2024") dmy = None).
Proof.
  split; [exact auto_rule_parts|].
  split.
  - intros A B Y sep1 sep2 HA HB HY HlY H1 H2. cbv zeta.
    rewrite !(numeric_date_policies A B Y sep1 sep2 HA HB HY HlY H1 H2).
    assert (HlA : List.length (trim A) <> 4%nat).
    { rewrite (trim_digits A (proj1 HA)). destruct HA as [_ Hl]. lia. }
    rewrite (auto_rule_parts A B Y HlA).
    rewrite (trim_digits A (proj1 HA)), (trim_digits B (proj1 HB)).
    destruct (shortDigits_compare A HA) as [-> _].
    destruct (shortDigits_compare B HB) as [_ ->].
    assert (HeA : isEmpty A = false)
      by (destruct HA as [_ Hl]; destruct A; [simpl in Hl; lia | reflexivity]).
    assert (HeB : isEmpty B = false)
      by (destruct HB as [_ Hl]; destruct B; [simpl in Hl; lia | reflexivity]).
    assert (HeY : isEmpty Y = false) by (destruct Y; [discriminate | reflexivity]).
    unfold parseDateFromParts. cbn [List.map].
    rewrite (trim_digits A (proj1 HA)), (trim_digits B (proj1 HB)),
      (trim_digits Y HY).
    rewrite HeA, HeB, HeY, HlY. cbn [orb andb format_eqb Nat.eqb].
    repeat split.
  - repeat split; vm_compute; reflexivity.
Qed.

End AutoPolicy.

Lemma auto_policy_disambiguation_witness :
  shortDigits (str "13") /\ shortDigits (str "05")
  /\ allDigits (str "2024") /\ List.length (str "2024") = 4%nat
  /\ isDateSep SLASH
  /\ normalizeDate (fun _ => None) (str "13" ++ [SLASH] ++ str "05" ++ [SLASH] ++ str "2024") auto
     = normalizeDate (fun _ => None) (str "13" ++ [SLASH] ++ str "05" ++ [SLASH] ++ str "2024") dmy.
Proof.
  assert (H13 : shortDigits (str "13")).
  { split; [repeat constructor | simpl; lia]. }
  assert (H05 : shortDigits (str "05")).
  { split; [repeat constructor | simpl; lia]. }
  assert (HY : allDigits (str "2024")) by repeat constructor.
  assert (HS : isDateSep SLASH) by now left.
  refine (conj H13 (conj H05 (conj HY (conj eq_refl (conj HS _))))).
  exact (proj2 (proj2 (proj1 (proj2 (auto_policy_disambiguation (fun _ => None)))
                         (str "13") (str "05") (str "2024") SLASH SLASH
                         H13 H05 HY eq_refl HS HS))).
Defined.

(** ** Insertion-ordered maps *)

Section MapFacts.
Variable V : Type.
Implicit Types (m : Map V) (k : jsstring) (v : V).

Lemma Map_has_keys m k : Map_has m k = existsb (string_eqb k) (keys m).
Proof.
  unfold Map_has. induction m as [|[k' v'] m IH]; simpl; [reflexivity|].
  destruct (string_eqb k' k) eqn:E.
  - apply string_eqb_eq in E. subst. now rewrite string_eqb_refl.
  - apply string_eqb_neq in E.
    assert (E' : string_eqb k k' = false) by (apply string_eqb_neq; congruence).
    now rewrite E'.
Qed.

Lemma Map_get_set m k v k' :
  Map_get (Map_set m k v) k' = if string_eqb k k' then Some v else Map_get m k'.
Proof.
  induction m as [|[k0 v0] m IH]; simpl.
  - reflexivity.
  - destruct (string_eqb k0 k) eqn:E; simpl.
    + apply string_eqb_eq in E. subst k0.
      now destruct (string_eqb k k').
    + destruct (string_eqb k0 k') eqn:E'; [|exact IH].
      apply string_eqb_eq in E'. subst k0.
      apply string_eqb_neq in E.
      assert (E' : string_eqb k k' = false) by (apply string_eqb_neq; congruence).
      now rewrite E'.
Qed.

Lemma keys_Map_set m k v :
  keys (Map_set m k v) = if Map_has m k then keys m else keys m ++ [k].
Proof.
  unfold Map_has, keys. induction m as [|[k0 v0] m IH]; simpl; [reflexivity|].
  destruct (string_eqb k0 k) eqn:E; simpl; [reflexivity|].
  rewrite IH. now destruct (Map_get m k).
Qed.

Lemma Map_has_false m k : Map_has m k = false -> ~ In k (keys m).
Proof.
  rewrite Map_has_keys. intros H Hin.
  assert (existsb (string_eqb k) (keys m) = true).
  { apply existsb_exists. exists k. split; [assumption | apply string_eqb_refl]. }
  congruence.
Qed.

Lemma NoDup_keys_Map_set m k v :
  NoDup (keys m) -> NoDup (keys (Map_set m k v)).
Proof.
  intros H. rewrite keys_Map_set.
  destruct (Map_has m k) eqn:E; [assumption|].
  apply NoDup_app; [assumption | repeat constructor; intros [] |].
  intros x Hx [<- | []]. now apply Map_has_false in E.
Qed.

Lemma Map_get_In m k v : Map_get m k = Some v -> In (k, v) m.
Proof.
  induction m as [|[k0 v0] m IH]; simpl; [discriminate|].
  destruct (string_eqb k0 k) eqn:E.
  - apply string_eqb_eq in E. intros [= ->]. subst. now left.
  - intros H. right. now apply IH.
Qed.

Lemma In_Map_get m k v : NoDup (keys m) -> In (k, v) m -> Map_get m k = Some v.
Proof.
  induction m as [|[k0 v0] m IH]; simpl; [contradiction|].
  intros Hnd [[= -> ->] | Hin].
  - now rewrite string_eqb_refl.
  - inversion Hnd as [|? ? Hnot Hnd']; subst.
    destruct (string_eqb k0 k) eqn:E; [|now apply IH].
    apply string_eqb_eq in E. subst k0. exfalso. apply Hnot.
    change k with (fst (k, v)). now apply in_map.
Qed.

Lemma In_Map_values m v :
  NoDup (keys m) -> (In v (Map_values m) <-> exists k, Map_get m k = Some v).
Proof.
  intros Hnd. unfold Map_values. rewrite in_map_iff. split.
  - intros ([k v'] & <- & Hin). exists k. now apply In_Map_get.
  - intros (k & H). exists (k, v). split; [reflexivity | now apply Map_get_In].
Qed.
End MapFacts.

(** ** Code-unit order and sorting *)

Lemma strCompare_eq (a b : jsstring) : strCompare a b = Eq -> a = b.
Proof.
  revert b. induction a as [|x a IH]; intros [|y b]; simpl; try discriminate;
    [reflexivity|].
  destruct (N.compare_spec x y) as [Exy| |]; try discriminate.
  intros Hab. subst. f_equal. now apply IH.
Qed.

Lemma strCompare_antisym (a b : jsstring) :
  strCompare b a = CompOpp (strCompare a b).
Proof.
  revert b. induction a as [|x a IH]; intros [|y b]; simpl; try reflexivity.
  rewrite (N.compare_antisym x y).
  destruct (N.compare x y); simpl; auto.
Qed.

Lemma strCompare_trans (a b c : jsstring) :
  strCompare a b <> Gt -> strCompare b c <> Gt -> strCompare a c <> Gt.
Proof.
  revert b c. induction a as [|x a IH]; intros [|y b] [|z c]; simpl;
    try congruence.
  destruct (N.compare_spec x y), (N.compare_spec y z), (N.compare_spec x z);
    subst; try congruence; try lia.
  apply IH.
Qed.

Section SortFacts.
Variable A : Type.
Implicit Types (l : list A) (x : A).

Lemma insertSorted_perm (cmp : A -> A -> comparison) x l :
  Permutation (insertSorted cmp x l) (x :: l).
Proof.
  induction l as [|y l IH]; simpl; [reflexivity|].
  destruct (cmp x y); try reflexivity.
  rewrite IH. apply perm_swap.
Qed.

Lemma sort_perm (cmp : A -> A -> comparison) l : Permutation (sort cmp l) l.
Proof.
  induction l as [|x l IH]; simpl; [reflexivity|].
  rewrite insertSorted_perm. now constructor.
Qed.

Lemma sort_In (cmp : A -> A -> comparison) l x : In x (sort cmp l) <-> In x l.
Proof.
  split; apply Permutation_in; [|symmetry]; apply sort_perm.
Qed.

Lemma insertSorted_ext (cmp1 cmp2 : A -> A -> comparison) x l :
  (forall b, In b l -> cmp1 x b = cmp2 x b) ->
  insertSorted cmp1 x l = insertSorted cmp2 x l.
Proof.
  induction l as [|y l IH]; intros H; simpl; [reflexivity|].
  rewrite (H y) by now left.
  destruct (cmp2 x y); try reflexivity.
  f_equal. apply IH. intros b Hb. apply H. now right.
Qed.

Lemma sort_ext (cmp1 cmp2 : A -> A -> comparison) l :
  (forall a b, In a l -> In b l -> cmp1 a b = cmp2 a b) ->
  sort cmp1 l = sort cmp2 l.
Proof.
  induction l as [|x l IH]; intros H; simpl; [reflexivity|].
  rewrite IH by (intros a b Ha Hb; apply H; now right).
  apply insertSorted_ext. intros b Hb. apply H; [now left|].
  right. now apply sort_In in Hb.
Qed.

Variable key : A -> jsstring.
Let byKey (a b : A) : comparison := strCompare (key a) (key b).
Let le (a b : A) : Prop := byKey a b <> Gt.

Lemma insertSorted_sorted x l :
  StronglySorted le l -> StronglySorted le (insertSorted byKey x l).
Proof.
  induction l as [|y l IH]; intros Hs; simpl.
  - repeat constructor.
  - inversion Hs as [|? ? Hs' Hall]; subst.
    destruct (byKey x y) eqn:E.
    + constructor; [assumption|]. constructor; [unfold le; congruence|].
      rewrite Forall_forall in *. intros z Hz. specialize (Hall z Hz).
      unfold le, byKey in *. apply strCompare_trans with (key y); congruence.
    + constructor; [assumption|]. constructor; [unfold le; congruence|].
      rewrite Forall_forall in *. intros z Hz. specialize (Hall z Hz).
      unfold le, byKey in *. apply strCompare_trans with (key y); congruence.
    + constructor; [now apply IH|].
      rewrite Forall_forall in *. intros z Hz.
      apply (Permutation_in _ (insertSorted_perm byKey x l)) in Hz.
      destruct Hz as [<- | Hz]; [|now apply Hall].
      unfold le, byKey in *. rewrite strCompare_antisym, E. discriminate.
Qed.

Lemma sort_sorted l : StronglySorted le (sort byKey l).
Proof.
  induction l as [|x l IH]; simpl; [constructor | now apply insertSorted_sorted].
Qed.

(** Sorting elements with distinct keys puts the keys in strictly
    increasing order. *)
Lemma sort_keys_increasing l :
  NoDup (List.map key l) ->
  strictlyIncreasing (List.map key (sort byKey l)).
Proof.
  intros Hnd.
  assert (Hnd' : NoDup (List.map key (sort byKey l))).
  { eapply Permutation_NoDup; [|exact Hnd].
    apply Permutation_map. symmetry. apply sort_perm. }
  pose proof (sort_sorted l) as Hs.
  induction Hs as [|a s Hs IH Hall]; simpl; [constructor|].
  inversion Hnd' as [|? ? Hnot Hnd'']; subst.
  constructor; [now apply IH|].
  rewrite Forall_forall in *. intros k Hk.
  apply in_map_iff in Hk as (b & <- & Hb).
  specialize (Hall b Hb). unfold le, byKey in Hall.
  destruct (strCompare (key a) (key b)) eqn:E; [|reflexivity|congruence].
  apply strCompare_eq in E. exfalso. apply Hnot. rewrite E. now apply in_map.
Qed.
End SortFacts.

(** ** Deduplication *)

Lemma validRow_fields (row : NormalizedRow) :
  validRow row ->
  exists c d a, dateIso row = Some (c :: d) /\ amount row = Some a.
Proof.
  unfold validRow. destruct (dateIso row) as [[|c d]|], (amount row) as [a|];
    simpl; try discriminate. eauto.
Qed.

Lemma validRows_valid (normalizedRows : list NormalizedRow) :
  Forall validRow (validRows normalizedRows).
Proof.
  apply Forall_forall. intros row H. unfold validRows in H.
  apply filter_In in H as [_ H]. exact H.
Qed.

Lemma hasDate_iff (d : jsstring) (row : NormalizedRow) :
  hasDate d row = true <-> dateIso row = Some d.
Proof.
  unfold hasDate. destruct (dateIso row) as [d'|].
  - rewrite string_eqb_eq. split; congruence.
  - split; discriminate.
Qed.

Lemma rowsOn_nonempty (d : jsstring) (l : list NormalizedRow) :
  rowsOn d l <> [] <-> exists row, In row l /\ dateIso row = Some d.
Proof.
  unfold rowsOn. split.
  - destruct (filter (hasDate d) l) as [|row rs] eqn:E; [congruence|].
    intros _. exists row.
    assert (H : In row (filter (hasDate d) l)) by (rewrite E; now left).
    apply filter_In in H as [Hin H]. now apply hasDate_iff in H.
  - intros (row & Hin & H) E.
    assert (Hf : In row (filter (hasDate d) l)).
    { apply filter_In. split; [assumption | now apply hasDate_iff]. }
    rewrite E in Hf. contradiction.
Qed.

Lemma fold_last_Some {A} (l : list A) (init : option A) (x : A) :
  fold_left (fun _ y => Some y) l init = Some x ->
  (l = [] /\ init = Some x) \/ exists l', l = l' ++ [x].
Proof.
  destruct l as [|a l'] using rev_ind; simpl.
  - auto.
  - rewrite fold_left_app. simpl. intros [= ->]. right. eauto.
Qed.

(** After the balance-mode loop, the row filed under a date is the last
    input row with that date. *)
Lemma balance_fold_get (l : list NormalizedRow) :
  forall m n d,
    Forall validRow l ->
    Map_get (fst (fold_left balanceStep l (m, n))) d
    = fold_left (fun _ row => Some row) (rowsOn d l) (Map_get m d).
Proof.
  induction l as [|row l IH]; intros m n d Hv; [reflexivity|].
  inversion Hv as [|? ? Hrow Hl]; subst.
  destruct (validRow_fields row Hrow) as (c & d0 & a & Hd & Ha).
  cbn [fold_left]. unfold balanceStep at 2. rewrite Hd.
  rewrite IH by assumption. rewrite Map_get_set.
  unfold rowsOn. cbn [filter]. unfold hasDate at 2. rewrite Hd.
  destruct (string_eqb (c :: d0) d); reflexivity.
Qed.

Lemma balance_fold_count (l : list NormalizedRow) :
  forall m n,
    Forall validRow l ->
    snd (fold_left balanceStep l (m, n)) = n + repeatedDates (keys m) l
    /\ (NoDup (keys m) -> NoDup (keys (fst (fold_left balanceStep l (m, n))))).
Proof.
  induction l as [|row l IH]; intros m n Hv.
  - simpl. split; [lia | auto].
  - inversion Hv as [|? ? Hrow Hl]; subst.
    destruct (validRow_fields row Hrow) as (c & d0 & a & Hd & Ha).
    cbn [fold_left repeatedDates]. unfold balanceStep at 2 4. rewrite Hd.
    destruct (IH (Map_set m (c :: d0) row)
                 (if Map_has m (c :: d0) then n + 1 else n) Hl) as [IHn IHk].
    rewrite IHn. rewrite keys_Map_set, <- Map_has_keys. split.
    + destruct (Map_has m (c :: d0)); lia.
    + intros Hnd. apply IHk. now apply NoDup_keys_Map_set.
Qed.

(** After the transactions-mode loop, the entry filed under a date holds
    the amounts of the input rows with that date, added in input order to
    what was filed before (or to zero). *)
Lemma transactions_fold_get (l : list NormalizedRow) :
  forall m n d,
    Forall validRow l ->
    Map_get (fst (fold_left transactionsStep l (m, n))) d
    = fold_left
        (fun acc row =>
           Some (d, add (match acc with Some e => snd e | None => ofZ 0 end)
                        (orZero (amount row))))
        (rowsOn d l) (Map_get m d).
Proof.
  induction l as [|row l IH]; intros m n d Hv; [reflexivity|].
  inversion Hv as [|? ? Hrow Hl]; subst.
  destruct (validRow_fields row Hrow) as (c & d0 & a & Hd & Ha).
  cbn [fold_left]. unfold transactionsStep at 2. rewrite Hd, Ha.
  rewrite IH by assumption. rewrite Map_get_set.
  unfold rowsOn. cbn [filter]. unfold hasDate at 2. rewrite Hd.
  destruct (string_eqb (c :: d0) d) eqn:E; [|reflexivity].
  apply string_eqb_eq in E. subst d. cbn [fold_left]. rewrite Ha.
  cbn [orZero]. reflexivity.
Qed.

Lemma transactions_fold_count (l : list NormalizedRow) :
  forall m n,
    Forall validRow l ->
    snd (fold_left transactionsStep l (m, n)) = n + repeatedDates (keys m) l
    /\ (NoDup (keys m) ->
        NoDup (keys (fst (fold_left transactionsStep l (m, n))))).
Proof.
  induction l as [|row l IH]; intros m n Hv.
  - simpl. split; [lia | auto].
  - inversion Hv as [|? ? Hrow Hl]; subst.
    destruct (validRow_fields row Hrow) as (c & d0 & a & Hd & Ha).
    cbn [fold_left repeatedDates]. unfold transactionsStep at 2 4.
    rewrite Hd, Ha.
    match goal with
    | |- context [fold_left transactionsStep l (?m', ?n')] =>
        destruct (IH m' n' Hl) as [IHn IHk]
    end.
    rewrite IHn. rewrite keys_Map_set, <- Map_has_keys. split.
    + destruct (Map_has m (c :: d0)); lia.
    + intros Hnd. apply IHk. now apply NoDup_keys_Map_set.
Qed.

Lemma fold_total (d : jsstring) (rs : list NormalizedRow) :
  forall x,
    fold_left
      (fun acc row =>
         Some (d, add (match acc with Some e => snd e | None => ofZ 0 end)
                      (orZero (amount row))))
      rs (Some (d, x))
    = Some (d, sumAmounts x rs).
Proof.
  induction rs as [|row rs IH]; intros x; [reflexivity|].
  cbn [fold_left snd]. rewrite IH. reflexivity.
Qed.

Lemma transactions_get_total (l : list NormalizedRow) (d : jsstring)
    (e : jsstring * number) :
  Forall validRow l ->
  (Map_get (fst (fold_left transactionsStep l ([], 0))) d = Some e
   <-> rowsOn d l <> [] /\ e = (d, sumAmounts (ofZ 0) (rowsOn d l))).
Proof.
  intros Hv. rewrite transactions_fold_get by assumption. cbn [Map_get].
  destruct (rowsOn d l) as [|row rs].
  - simpl. split; [discriminate | intros [H _]; congruence].
  - cbn [fold_left]. rewrite fold_total. unfold sumAmounts. cbn [fold_left].
    split.
    + intros [= <-]. split; [discriminate | reflexivity].
    + intros [_ ->]. reflexivity.
Qed.

Lemma balance_get_last (l : list NormalizedRow) (d : jsstring)
    (row : NormalizedRow) :
  Forall validRow l ->
  (Map_get (fst (fold_left balanceStep l ([], 0))) d = Some row
   <-> exists earlier, rowsOn d l = earlier ++ [row]).
Proof.
  intros Hv. rewrite balance_fold_get by assumption. cbn [Map_get]. split.
  - intros H. apply fold_last_Some in H as [[_ H] | H]; [discriminate | exact H].
  - intros (earlier & ->). rewrite fold_left_app. reflexivity.
Qed.

Lemma balance_fold_length (l : list NormalizedRow) :
  forall m n,
    Forall validRow l ->
    Z.of_nat (List.length (fst (fold_left balanceStep l (m, n))))
    + snd (fold_left balanceStep l (m, n))
    = Z.of_nat (List.length m) + n + Z.of_nat (List.length l).
Proof.
  induction l as [|row l IH]; intros m n Hv; [simpl; lia|].
  inversion Hv as [|? ? Hrow Hl]; subst.
  destruct (validRow_fields row Hrow) as (c & d0 & a & Hd & Ha).
  cbn [fold_left]. unfold balanceStep at 2 4. rewrite Hd.
  rewrite IH by assumption.
  pose proof (f_equal (@List.length _) (keys_Map_set _ m (c :: d0) row)) as Hk.
  unfold keys in Hk. rewrite length_map in Hk. rewrite Hk.
  destruct (Map_has m (c :: d0));
    rewrite ?length_app, ?length_map; cbn [List.length]; lia.
Qed.

Lemma transactions_fold_length (l : list NormalizedRow) :
  forall m n,
    Forall validRow l ->
    Z.of_nat (List.length (fst (fold_left transactionsStep l (m, n))))
    + snd (fold_left transactionsStep l (m, n))
    = Z.of_nat (List.length m) + n + Z.of_nat (List.length l).
Proof.
  induction l as [|row l IH]; intros m n Hv; [simpl; lia|].
  inversion Hv as [|? ? Hrow Hl]; subst.
  destruct (validRow_fields row Hrow) as (c & d0 & a & Hd & Ha).
  cbn [fold_left]. unfold transactionsStep at 2 4. rewrite Hd, Ha.
  rewrite IH by assumption.
  match goal with
  | |- context [Map_set m (c :: d0) ?v] =>
      pose proof (f_equal (@List.length _) (keys_Map_set _ m (c :: d0) v)) as Hk
  end.
  unfold keys in Hk. rewrite length_map in Hk. rewrite Hk.
  destruct (Map_has m (c :: d0));
    rewrite ?length_app, ?length_map; cbn [List.length]; lia.
Qed.

Section DedupClaims.

Variable localeCompare : jsstring -> jsstring -> comparison.

Lemma dedupedRows_balance (l : list NormalizedRow) :
  dedupedRows localeCompare balance l
  = {| rows := List.map BalanceRow
                 (sort (compareBalanceRows localeCompare)
                    (Map_values (fst (fold_left balanceStep l ([], 0)))));
       duplicateCount := snd (fold_left balanceStep l ([], 0)) |}.
Proof.
  unfold dedupedRows. now destruct (fold_left balanceStep l ([], 0)).
Qed.

Lemma dedupedRows_transactions (l : list NormalizedRow) :
  dedupedRows localeCompare transactions l
  = {| rows := List.map (fun e => DayTotal (fst e) (snd e))
                 (sort (fun a b => localeCompare (fst a) (fst b))
                    (Map_values (fst (fold_left transactionsStep l ([], 0)))));
       duplicateCount := snd (fold_left transactionsStep l ([], 0)) |}.
Proof.
  unfold dedupedRows. now destruct (fold_left transactionsStep l ([], 0)).
Qed.

Lemma balance_rows_iff (l : list NormalizedRow) (e : DedupedRow) :
  Forall validRow l ->
  (In e (rows (dedupedRows localeCompare balance l))
   <-> exists d earlier row,
         rowsOn d l = earlier ++ [row] /\ e = BalanceRow row).
Proof.
  intros Hv. rewrite dedupedRows_balance. cbn [rows].
  pose proof (proj2 (balance_fold_count l [] 0 Hv) (NoDup_nil _)) as Hnd.
  rewrite in_map_iff. split.
  - intros (row & <- & Hin). apply sort_In in Hin.
    apply (In_Map_values _ _ _ Hnd) in Hin as (d & Hget).
    apply (balance_get_last l d row Hv) in Hget as (earlier & H).
    eauto.
  - intros (d & earlier & row & H & ->). exists row. split; [reflexivity|].
    apply sort_In. apply (In_Map_values _ _ _ Hnd). exists d.
    apply (balance_get_last l d row Hv). eauto.
Qed.

Lemma transactions_rows_iff (l : list NormalizedRow) (e : DedupedRow) :
  Forall validRow l ->
  (In e (rows (dedupedRows localeCompare transactions l))
   <-> exists d,
         rowsOn d l <> []
         /\ e = DayTotal d (sumAmounts (ofZ 0) (rowsOn d l))).
Proof.
  intros Hv. rewrite dedupedRows_transactions. cbn [rows].
  pose proof (proj2 (transactions_fold_count l [] 0 Hv) (NoDup_nil _)) as Hnd.
  rewrite in_map_iff. split.
  - intros (entry & <- & Hin). apply sort_In in Hin.
    apply (In_Map_values _ _ _ Hnd) in Hin as (d & Hget).
    apply (transactions_get_total l d entry Hv) in Hget as [Hne ->].
    eauto.
  - intros (d & Hne & ->).
    exists (d, sumAmounts (ofZ 0) (rowsOn d l)). split; [reflexivity|].
    apply sort_In. apply (In_Map_values _ _ _ Hnd). exists d.
    now apply (transactions_get_total l d _ Hv).
Qed.

Lemma duplicateCount_spec (statementType : StatementType)
    (l : list NormalizedRow) :
  Forall validRow l ->
  duplicateCount (dedupedRows localeCompare statementType l)
  = repeatedDates [] l
  /\ Z.of_nat (List.length (rows (dedupedRows localeCompare statementType l)))
     + duplicateCount (dedupedRows localeCompare statementType l)
     = Z.of_nat (List.length l).
Proof.
  intros Hv. destruct statementType.
  - rewrite dedupedRows_balance. cbn [rows duplicateCount].
    pose proof (proj1 (balance_fold_count l [] 0 Hv)) as Hc.
    pose proof (balance_fold_length l [] 0 Hv) as Hlen.
    cbn [keys List.map List.length] in Hc, Hlen.
    rewrite length_map, (Permutation_length (sort_perm _ _ _)).
    unfold Map_values. rewrite length_map.
    unfold Map in *. lia.
  - rewrite dedupedRows_transactions. cbn [rows duplicateCount].
    pose proof (proj1 (transactions_fold_count l [] 0 Hv)) as Hc.
    pose proof (transactions_fold_length l [] 0 Hv) as Hlen.
    cbn [keys List.map List.length] in Hc, Hlen.
    rewrite length_map, (Permutation_length (sort_perm _ _ _)).
    unfold Map_values. rewrite length_map.
    unfold Map in *. lia.
Qed.

End DedupClaims.

Lemma In_keys_get (V : Type) (m : Map V) (k : jsstring) :
  In k (keys m) <-> exists v, Map_get m k = Some v.
Proof.
  induction m as [|[k0 v0] m IH]; simpl.
  - split; [contradiction | intros [v H]; discriminate].
  - destruct (string_eqb k0 k) eqn:E.
    + apply string_eqb_eq in E. subst. split; eauto.
    + apply string_eqb_neq in E. rewrite <- IH. split; [|auto].
      intros [H | H]; [contradiction | assumption].
Qed.

Lemma keys_of_values (V : Type) (kf : V -> jsstring) (m : Map V) :
  (forall k v, In (k, v) m -> kf v = k) ->
  List.map kf (Map_values m) = keys m.
Proof.
  induction m as [|[k0 v0] m IH]; intros H; simpl; [reflexivity|].
  rewrite (H k0 v0) by now left.
  f_equal. apply IH. intros k v Hin. apply H. now right.
Qed.

(** Sorting the values of a map lists every key once; when the comparator
    orders the keys like the code-unit order, in strictly increasing
    order. *)
Lemma sorted_values_dates (V : Type) (kf : V -> jsstring)
    (cmp : V -> V -> comparison) (m : Map V) :
  NoDup (keys m) ->
  (forall k v, In (k, v) m -> kf v = k) ->
  let dates := List.map kf (sort cmp (Map_values m)) in
  NoDup dates
  /\ (forall d, In d dates <-> In d (keys m))
  /\ ((forall a b, In a (Map_values m) -> In b (Map_values m) ->
                   cmp a b = strCompare (kf a) (kf b)) ->
      strictlyIncreasing dates).
Proof.
  intros Hnd Hkf. cbv zeta.
  pose proof (keys_of_values V kf m Hkf) as Hkeys.
  assert (Hperm : Permutation (List.map kf (sort cmp (Map_values m))) (keys m)).
  { rewrite <- Hkeys. apply Permutation_map, sort_perm. }
  split; [|split].
  - eapply Permutation_NoDup; [symmetry; exact Hperm | exact Hnd].
  - intros d. split; apply Permutation_in; [|symmetry]; exact Hperm.
  - intros Hcmp.
    rewrite (sort_ext _ cmp (fun a b => strCompare (kf a) (kf b)) _ Hcmp).
    apply sort_keys_increasing. now rewrite Hkeys.
Qed.

Section SortedClaims.

Variable localeCompare : jsstring -> jsstring -> comparison.

Lemma balance_dates (l : list NormalizedRow) :
  Forall validRow l ->
  exists dates,
    List.map rowDateIso (rows (dedupedRows localeCompare balance l))
    = List.map Some dates
    /\ NoDup dates
    /\ (forall d, In d dates <-> exists row, In row l /\ dateIso row = Some d)
    /\ ((forall a b,
            (exists row, In row l /\ dateIso row = Some a) ->
            (exists row, In row l /\ dateIso row = Some b) ->
            localeCompare a b = strCompare a b) ->
        strictlyIncreasing dates).
Proof.
  intros Hv. rewrite dedupedRows_balance. cbn [rows].
  set (m := fst (fold_left balanceStep l ([], 0))).
  pose proof (proj2 (balance_fold_count l [] 0 Hv) (NoDup_nil _)) as Hnd.
  fold m in Hnd.
  assert (Hentry : forall k v, In (k, v) m ->
                     dateIso v = Some k /\ In v l).
  { intros k v Hin. apply (In_Map_get _ _ _ _ Hnd) in Hin.
    apply (balance_get_last l k v Hv) in Hin as (earlier & H).
    assert (Hf : In v (rowsOn k l)) by (rewrite H; apply in_or_app; right; now left).
    apply filter_In in Hf as [Hl Hf]. now apply hasDate_iff in Hf. }
  assert (Hkf : forall k v, In (k, v) m -> balanceKey v = k).
  { intros k v Hin. unfold balanceKey.
    now rewrite (proj1 (Hentry k v Hin)). }
  assert (Hval : forall v, In v (Map_values m) ->
                   exists c d, dateIso v = Some (c :: d) /\ In v l).
  { intros v Hin. apply in_map_iff in Hin as ([k v'] & <- & Hin).
    destruct (Hentry k v' Hin) as [Hd Hl]. cbn [snd].
    rewrite Forall_forall in Hv.
    destruct (validRow_fields v' (Hv v' Hl)) as (c & d & a & Hd' & _).
    eauto. }
  destruct (sorted_values_dates _ balanceKey
              (compareBalanceRows localeCompare) m Hnd Hkf)
    as (Hnodup & Hin & Hinc).
  eexists. split; [|split; [exact Hnodup | split]].
  - rewrite !map_map. apply map_ext_in. intros v Hv'.
    apply sort_In in Hv'. destruct (Hval v Hv') as (c & d & Hd & _).
    cbn [rowDateIso]. unfold balanceKey. now rewrite Hd.
  - intros d. rewrite Hin, In_keys_get. split.
    + intros (v & Hget).
      apply (balance_get_last l d v Hv) in Hget as (earlier & H).
      apply rowsOn_nonempty. rewrite H. now destruct earlier.
    + intros H. apply rowsOn_nonempty in H.
      destruct (exists_last H) as (earlier & v & Hlast).
      exists v. apply (balance_get_last l d v Hv). eauto.
  - intros Hlc. apply Hinc. intros a b Ha Hb.
    destruct (Hval a Ha) as (ca & da & Hda & Hla).
    destruct (Hval b Hb) as (cb & db & Hdb & Hlb).
    unfold compareBalanceRows, balanceKey. rewrite Hda, Hdb. cbn [orEmpty].
    apply Hlc; eauto.
Qed.

Lemma transactions_dates (l : list NormalizedRow) :
  Forall validRow l ->
  exists dates,
    List.map rowDateIso (rows (dedupedRows localeCompare transactions l))
    = List.map Some dates
    /\ NoDup dates
    /\ (forall d, In d dates <-> exists row, In row l /\ dateIso row = Some d)
    /\ ((forall a b,
            (exists row, In row l /\ dateIso row = Some a) ->
            (exists row, In row l /\ dateIso row = Some b) ->
            localeCompare a b = strCompare a b) ->
        strictlyIncreasing dates).
Proof.
  intros Hv. rewrite dedupedRows_transactions. cbn [rows].
  set (m := fst (fold_left transactionsStep l ([], 0))).
  pose proof (proj2 (transactions_fold_count l [] 0 Hv) (NoDup_nil _)) as Hnd.
  fold m in Hnd.
  assert (Hentry : forall k v, In (k, v) m ->
                     fst v = k /\ exists row, In row l /\ dateIso row = Some k).
  { intros k v Hin. apply (In_Map_get _ _ _ _ Hnd) in Hin.
    apply (transactions_get_total l k v Hv) in Hin as [Hne ->].
    split; [reflexivity | now apply rowsOn_nonempty]. }
  assert (Hkf : forall k v, In (k, v) m -> totalKey v = k).
  { intros k v Hin. exact (proj1 (Hentry k v Hin)). }
  destruct (sorted_values_dates _ totalKey
              (fun a b => localeCompare (fst a) (fst b)) m Hnd Hkf)
    as (Hnodup & Hin & Hinc).
  eexists. split; [|split; [exact Hnodup | split]].
  - rewrite !map_map. reflexivity.
  - intros d. rewrite Hin, In_keys_get. split.
    + intros (v & Hget).
      apply (transactions_get_total l d v Hv) in Hget as [Hne _].
      now apply rowsOn_nonempty.
    + intros H. apply rowsOn_nonempty in H. eexists.
      apply (transactions_get_total l d _ Hv). split; [exact H | reflexivity].
  - intros Hlc. apply Hinc. intros a b Ha Hb.
    apply in_map_iff in Ha as ([ka a'] & <- & Ha).
    apply in_map_iff in Hb as ([kb b'] & <- & Hb).
    destruct (Hentry ka a' Ha) as [Eka Hra].
    destruct (Hentry kb b' Hb) as [Ekb Hrb].
    cbn [snd]. unfold totalKey. rewrite Eka, Ekb. now apply Hlc.
Qed.

(** C2. Rows are grouped by date with a policy that depends on the
    mode: in balance mode the row kept for a date is the last input row
    with that date; in transactions mode the amounts of the rows with
    that date are added up; in both modes [duplicateCount] is the number
    of rows whose date occurred in an earlier row, which is the number
    of valid rows minus the number of entries. Two balance rows dated
    2024-01-05 with values 100 then 150 give the single entry of the
    second row and [duplicateCount] 1. *)
Theorem dedup_policy_by_mode (normalizedRows : list NormalizedRow) :
  let valid := validRows normalizedRows in
  (forall e,
      In e (rows (dedupedRows localeCompare balance valid))
      <-> exists d earlier row,
            rowsOn d valid = earlier ++ [row] /\ e = BalanceRow row)
  /\ (forall e,
         In e (rows (dedupedRows localeCompare transactions valid))
         <-> exists d,
               rowsOn d valid <> []
               /\ e = DayTotal d (sumAmounts (ofZ 0) (rowsOn d valid)))
  /\ (forall statementType,
         duplicateCount (dedupedRows localeCompare statementType valid)
         = repeatedDates [] valid
         /\ Z.of_nat (List.length
                        (rows (dedupedRows localeCompare statementType valid)))
            + duplicateCount (dedupedRows localeCompare statementType valid)
            = Z.of_nat (List.length valid))
  /\ (let first := {| rowIndex := 2; rawDate := str "2024-01-05";
                      rawValue := str "100";
                      dateIso := Some (str "2024-01-05");
                      amount := parseAmount (str "100") |} in
      let second := {| rowIndex := 3; rawDate := str "2024-01-05";
                       rawValue := str "150";
                       dateIso := Some (str "2024-01-05");
                       amount := parseAmount (str "150") |} in
      dedupedRows localeCompare balance (validRows [first; second])
      = {| rows := [BalanceRow second]; duplicateCount := 1 |}
      /\ rowAmount (BalanceRow second) = Some (ofZ 150)).
Proof.
  cbv zeta. pose proof (validRows_valid normalizedRows) as Hv.
  split; [intros e; now apply balance_rows_iff|].
  split; [intros e; now apply transactions_rows_iff|].
  split; [intros st; now apply duplicateCount_spec|].
  split; vm_compute; reflexivity.
Qed.


End SortedClaims.



(** ** Running balance *)

Lemma runningEntries_length (acct : jsstring) (l : list DedupedRow) :
  forall s, List.length (runningEntries acct s l) = List.length l.
Proof.
  induction l as [|row l IH]; intros s; simpl; [reflexivity|].
  now rewrite IH.
Qed.

Lemma runningEntries_nth (acct : jsstring) (l : list DedupedRow) :
  forall s k row,
    nth_error l k = Some row ->
    nth_error (runningEntries acct s l) k
    = Some {| accountId := acct;
              entryAmount := runningTotal s (firstn (S k) l);
              date := NewDate (orEmpty (rowDateIso row)) |}.
Proof.
  induction l as [|r l IH]; intros s k row H.
  - destruct k; discriminate.
  - destruct k as [|k].
    + simpl in H. injection H as ->. reflexivity.
    + simpl in H. cbn [runningEntries nth_error].
      rewrite (IH _ k row H). reflexivity.
Qed.

Section RunningBalanceClaims.

Variable localeCompare : jsstring -> jsstring -> comparison.

(** C1. In transactions mode with a starting balance [s], the entry at
    each position carries [s] plus the amounts of the deduplicated rows
    up to and including that position (the updated accumulator), and the
    date of the row at that position; with an account selected there is
    one entry for each row. With starting balance 1000, two
    rows of day 1 (+50 and -20, summed to +30) and one of day 2 (+100),
    the entries are 1030 for day 1 and 1130 for day 2. *)
Theorem running_balance_entries :
  (forall selectedAccountId s dedupedRows,
      isEmpty selectedAccountId = false ->
      let entries :=
        importEntries selectedAccountId transactions (Some s) dedupedRows in
      List.length entries = List.length dedupedRows
      /\ forall k row,
           nth_error dedupedRows k = Some row ->
           nth_error entries k
           = Some {| accountId := selectedAccountId;
                     entryAmount := runningTotal s (firstn (S k) dedupedRows);
                     date := NewDate (orEmpty (rowDateIso row)) |})
  /\ (forall selectedAccountId s dedupedRows k entry,
         nth_error
           (importEntries selectedAccountId transactions (Some s) dedupedRows) k
         = Some entry ->
         exists row,
           nth_error dedupedRows k = Some row
           /\ entry = {| accountId := selectedAccountId;
                         entryAmount := runningTotal s (firstn (S k) dedupedRows);
                         date := NewDate (orEmpty (rowDateIso row)) |})
  /\ (forall selectedAccountId,
         isEmpty selectedAccountId = false ->
         let day1 := str "2024-03-01" in
         let day2 := str "2024-03-02" in
         localeCompare day1 day2 = Lt ->
         let row i d v := {| rowIndex := i; rawDate := d; rawValue := v;
                             dateIso := Some d; amount := parseAmount v |} in
         let deduped :=
           dedupedRows localeCompare transactions
             (validRows [row 2 day1 (str "50"); row 3 day1 (str "-20");
                         row 4 day2 (str "100")]) in
         rows deduped = [DayTotal day1 (ofZ 30); DayTotal day2 (ofZ 100)]
         /\ importEntries selectedAccountId transactions
              (startingBalance transactions (str "1000")) (rows deduped)
            = [ {| accountId := selectedAccountId; entryAmount := ofZ 1030;
                   date := NewDate day1 |};
                {| accountId := selectedAccountId; entryAmount := ofZ 1130;
                   date := NewDate day2 |} ]).
Proof.
  split; [|split].
  - intros acct s l Hacct. cbv zeta. unfold importEntries. rewrite Hacct.
    split; [apply runningEntries_length | apply runningEntries_nth].
  - intros acct s l k entry H. unfold importEntries in H.
    destruct (isEmpty acct); [destruct k; discriminate|].
    assert (Hk : (k < List.length l)%nat).
    { rewrite <- (runningEntries_length acct l s).
      apply nth_error_Some. congruence. }
    apply nth_error_Some in Hk.
    destruct (nth_error l k) as [row|] eqn:E; [|congruence].
    exists row. split; [reflexivity|].
    rewrite (runningEntries_nth acct l s k row E) in H. congruence.
  - intros acct Hacct. cbv beta zeta. intros Hlt.
    assert (Hrows :
      rows (dedupedRows localeCompare transactions
              (validRows
                 [ {| rowIndex := 2; rawDate := str "2024-03-01";
                      rawValue := str "50";
                      dateIso := Some (str "2024-03-01");
                      amount := parseAmount (str "50") |};
                   {| rowIndex := 3; rawDate := str "2024-03-01";
                      rawValue := str "-20";
                      dateIso := Some (str "2024-03-01");
                      amount := parseAmount (str "-20") |};
                   {| rowIndex := 4; rawDate := str "2024-03-02";
                      rawValue := str "100";
                      dateIso := Some (str "2024-03-02");
                      amount := parseAmount (str "100") |} ]))
      = [DayTotal (str "2024-03-01") (ofZ 30);
         DayTotal (str "2024-03-02") (ofZ 100)]).
    { vm_compute. vm_compute in Hlt. rewrite Hlt. reflexivity. }
    rewrite Hrows. split; [reflexivity|].
    unfold importEntries. rewrite Hacct. vm_compute. reflexivity.
Qed.

End RunningBalanceClaims.

Lemma running_balance_entries_witness :
  isEmpty (str "acct-1") = false
  /\ nth_error
       (importEntries (str "acct-1") transactions (Some (ofZ 1000))
          [DayTotal (str "2024-03-01") (ofZ 30);
           DayTotal (str "2024-03-02") (ofZ 100)]) 1
     = Some {| accountId := str "acct-1";
               entryAmount :=
                 runningTotal (ofZ 1000)
                   (firstn 2 [DayTotal (str "2024-03-01") (ofZ 30);
                              DayTotal (str "2024-03-02") (ofZ 100)]);
               date := NewDate (orEmpty (rowDateIso
                                  (DayTotal (str "2024-03-02") (ofZ 100)))) |}.
Proof.
  split; [reflexivity|].
  exact (proj2 (proj1 (running_balance_entries strCompare)
                  (str "acct-1") (ofZ 1000)
                  [DayTotal (str "2024-03-01") (ofZ 30);
                   DayTotal (str "2024-03-02") (ofZ 100)] eq_refl)
           1%nat (DayTotal (str "2024-03-02") (ofZ 100)) eq_refl).
Defined.

(** * Further properties of the component *)

(** ** Tokenizer on plain text *)

Lemma splitOn_cons_other (sep c : char) (s : jsstring) :
  char_eqb c sep = false ->
  exists seg segs,
    splitOn sep s = seg :: segs /\ splitOn sep (c :: s) = (c :: seg) :: segs.
Proof.
  intros H. simpl. rewrite H.
  pose proof (splitOn_nonempty sep s) as Hne.
  destruct (splitOn sep s) as [|seg segs]; [contradiction|]. eauto.
Qed.

Lemma splitLines_cons (text : jsstring) :
  exists field fields rest, splitLines text = (field :: fields) :: rest.
Proof.
  unfold splitLines.
  pose proof (splitOn_nonempty LF text) as Hne.
  destruct (splitOn LF text) as [|line lines]; [contradiction|].
  pose proof (splitOn_nonempty COMMA line) as Hne'. cbn [List.map].
  destruct (splitOn COMMA line) as [|field fields]; [contradiction|]. eauto.
Qed.

(** Scanning text without quotes: the finished rows with the row in
    progress are the lines of the text without its carriage returns,
    resumed from the state the scan started in. *)
Lemma scanCsv_plain (text : jsstring) :
  ~ In DQUOTE text ->
  forall currentField currentRow rows,
    let '(rows', currentRow', currentField') :=
      scanCsv text false currentField currentRow rows in
    rows' ++ [currentRow' ++ [currentField']]
    = rows ++ resumeRow currentRow currentField (splitLines (filter notCR text)).
Proof.
  induction text as [|c text IH]; intros Hq f row rows.
  - simpl. now rewrite app_nil_r.
  - assert (Hc : char_eqb c DQUOTE = false).
    { apply char_eqb_neq. intros ->. apply Hq. now left. }
    assert (Hq' : ~ In DQUOTE text) by (intros H; apply Hq; now right).
    specialize (IH Hq').
    destruct (splitLines_cons (filter notCR text)) as (g & gs & rest & Hsplit).
    cbn [scanCsv filter]. rewrite Hc. unfold notCR at 1.
    destruct (char_eqb c COMMA) eqn:Ecomma.
    { apply char_eqb_eq in Ecomma. subst c.
      change (negb (char_eqb COMMA CR)) with true. cbv iota.
      specialize (IH [] (row ++ [f]) rows).
      destruct (scanCsv text false [] (row ++ [f]) rows) as [[rows' row'] f'].
      rewrite IH, Hsplit. unfold splitLines in *.
      destruct (splitOn_cons_other LF COMMA (filter notCR text) eq_refl)
        as (seg & segs & E1 & E2).
      rewrite E2. rewrite E1 in Hsplit. cbn [List.map] in *.
      injection Hsplit as Hseg Hrest. cbn [splitOn]. rewrite char_eqb_refl.
      rewrite Hseg, Hrest. cbn [resumeRow]. rewrite app_nil_r.
      now rewrite <- app_assoc. }
    destruct (char_eqb c LF) eqn:Elf.
    { apply char_eqb_eq in Elf. subst c.
      change (negb (char_eqb LF CR)) with true. cbv iota.
      specialize (IH [] [] (rows ++ [row ++ [f]])).
      destruct (scanCsv text false [] [] (rows ++ [row ++ [f]]))
        as [[rows' row'] f'].
      rewrite IH. unfold splitLines in *.
      cbn [splitOn]. rewrite char_eqb_refl. cbn [List.map splitOn].
      rewrite Hsplit. cbn [resumeRow app]. rewrite app_nil_r.
      now rewrite <- app_assoc. }
    destruct (char_eqb c CR) eqn:Ecr.
    { cbn [negb]. apply IH. }
    cbn [negb].
    specialize (IH (f ++ [c]) row rows).
    destruct (scanCsv text false (f ++ [c]) row rows) as [[rows' row'] f'].
    rewrite IH, Hsplit. unfold splitLines in *.
    destruct (splitOn_cons_other LF c (filter notCR text) Elf)
      as (seg & segs & E1 & E2).
    rewrite E2. rewrite E1 in Hsplit. cbn [List.map] in *.
    injection Hsplit as Hseg Hrest.
    destruct (splitOn_cons_other COMMA c seg Ecomma) as (g0 & gs0 & E3 & E4).
    rewrite E4. rewrite E3 in Hseg. injection Hseg as -> ->.
    rewrite Hrest. cbn [resumeRow]. now rewrite <- app_assoc.
Qed.

Lemma hasContent_blank : hasContent [[]] = false.
Proof. reflexivity. Qed.

(** Without quotes the tokenizer is a split: drop the carriage returns,
    cut at newlines, cut each line at commas, and drop the rows whose
    cells are all blank. *)
Theorem tokenizer_is_split_on_plain_text (text : jsstring) :
  ~ In DQUOTE text ->
  parseCsv text = filter hasContent (splitLines (filter notCR text)).
Proof.
  intros Hq. unfold parseCsv.
  pose proof (scanCsv_plain text Hq [] [] []) as H.
  destruct (scanCsv text false [] [] []) as [[rows currentRow] currentField].
  assert (Hres : resumeRow [] [] (splitLines (filter notCR text))
                 = splitLines (filter notCR text)).
  { destruct (splitLines_cons (filter notCR text)) as (g & gs & rest & ->).
    reflexivity. }
  rewrite Hres in H. cbn [app] in H. rewrite <- H.
  destruct currentField as [|c f]; [destruct currentRow as [|r row]|];
    cbn [isEmpty negb orb]; try reflexivity.
  rewrite filter_app. change ([] ++ [[]]) with [@nil char].
  cbn [filter]. rewrite hasContent_blank. now rewrite app_nil_r.
Qed.

Lemma tokenizer_is_split_on_plain_text_witness :
  let text := str "a,b" ++ [CR; LF] ++ str " , " ++ [CR; LF] ++ str "c,d" in
  ~ In DQUOTE text
  /\ parseCsv text = filter hasContent (splitLines (filter notCR text)).
Proof.
  cbv zeta.
  assert (Hq : ~ In DQUOTE (str "a,b" ++ [CR; LF] ++ str " , " ++ [CR; LF]
                            ++ str "c,d")).
  { vm_compute. intuition discriminate. }
  exact (conj Hq (tokenizer_is_split_on_plain_text _ Hq)).
Defined.

(** ** Unterminated quote *)

Lemma scanCsv_open_quote (s : jsstring) :
  ~ In DQUOTE s ->
  forall currentField currentRow rows,
    scanCsv s true currentField currentRow rows
    = (rows, currentRow, currentField ++ s).
Proof.
  induction s as [|c s IH]; intros Hq f row rows.
  - simpl. now rewrite app_nil_r.
  - assert (Hc : char_eqb c DQUOTE = false).
    { apply char_eqb_neq. intros ->. apply Hq. now left. }
    cbn [scanCsv]. rewrite Hc.
    rewrite IH by (intros H; apply Hq; now right).
    now rewrite <- app_assoc.
Qed.

Lemma scanCsv_plain_app (pre rest : jsstring) :
  ~ In DQUOTE pre ->
  forall currentField currentRow rows,
    scanCsv (pre ++ rest) false currentField currentRow rows
    = let '(rows', currentRow', currentField') :=
        scanCsv pre false currentField currentRow rows in
      scanCsv rest false currentField' currentRow' rows'.
Proof.
  induction pre as [|c pre IH]; intros Hq f row rows; [reflexivity|].
  assert (Hc : char_eqb c DQUOTE = false).
  { apply char_eqb_neq. intros ->. apply Hq. now left. }
  assert (Hq' : ~ In DQUOTE pre) by (intros H; apply Hq; now right).
  cbn [app scanCsv]. rewrite Hc.
  destruct (char_eqb c COMMA); [now apply IH|].
  destruct (char_eqb c LF); [now apply IH|].
  destruct (char_eqb c CR); now apply IH.
Qed.

(** A quote that is never closed takes the rest of the input, commas and
    newlines included, into the field being read: the text before the
    quote is split as plain text and everything after the quote is
    appended to its last field. *)
Theorem unterminated_quote_takes_rest (pre s : jsstring) :
  ~ In DQUOTE pre -> ~ In DQUOTE s ->
  parseCsv (pre ++ DQUOTE :: s)
  = filter hasContent (extendLast (splitLines (filter notCR pre)) s).
Proof.
  intros Hpre Hs. unfold parseCsv.
  rewrite (scanCsv_plain_app pre (DQUOTE :: s) Hpre).
  pose proof (scanCsv_plain pre Hpre [] [] []) as H.
  destruct (scanCsv pre false [] [] []) as [[rows currentRow] currentField].
  assert (Hres : resumeRow [] [] (splitLines (filter notCR pre))
                 = splitLines (filter notCR pre)).
  { destruct (splitLines_cons (filter notCR pre)) as (g & gs & rest & ->).
    reflexivity. }
  rewrite Hres in H. cbn [app] in H. rewrite <- H.
  cbn [scanCsv]. rewrite char_eqb_refl.
  rewrite (scanCsv_open_quote s Hs).
  unfold extendLast. rewrite rev_app_distr. cbn [rev app].
  rewrite rev_app_distr. cbn [rev app]. rewrite !rev_involutive.
  destruct (currentField ++ s) as [|c f] eqn:E;
    [destruct currentRow as [|r row]|]; cbn [isEmpty negb orb];
    try reflexivity.
  rewrite filter_app. change ([] ++ [[]]) with [@nil char].
  cbn [filter]. rewrite hasContent_blank. now rewrite app_nil_r.
Qed.

Lemma unterminated_quote_takes_rest_witness :
  let pre := str "a,b" ++ [LF] ++ str "c," in
  let s := str "d,e" ++ [LF] ++ str "f" in
  ~ In DQUOTE pre /\ ~ In DQUOTE s
  /\ parseCsv (pre ++ DQUOTE :: s)
     = [[str "a"; str "b"]; [str "c"; s]].
Proof.
  cbv zeta.
  assert (Hpre : ~ In DQUOTE (str "a,b" ++ [LF] ++ str "c,")).
  { vm_compute. intuition discriminate. }
  assert (Hs : ~ In DQUOTE (str "d,e" ++ [LF] ++ str "f")).
  { vm_compute. intuition discriminate. }
  refine (conj Hpre (conj Hs _)).
  rewrite (unterminated_quote_takes_rest _ _ Hpre Hs). reflexivity.
Defined.

(** ** Column detection *)

Lemma findIndexFrom_spec {A} (p : A -> bool) (l : list A) :
  forall i,
    (findIndexFrom p l i = -1 /\ Forall (fun x => p x = false) l)
    \/ exists k x,
         findIndexFrom p l i = i + Z.of_nat k
         /\ nth_error l k = Some x /\ p x = true
         /\ Forall (fun y => p y = false) (firstn k l).
Proof.
  induction l as [|x l IH]; intros i.
  - left. split; [reflexivity | constructor].
  - cbn [findIndexFrom]. destruct (p x) eqn:Ex.
    + right. exists 0%nat, x. repeat split; [lia | assumption | constructor].
    + destruct (IH (i + 1)) as [[Hr Hall] | (k & y & Hr & Hn & Hy & Hall)].
      * left. split; [assumption | now constructor].
      * right. exists (S k), y. repeat split; try assumption; [lia|].
        cbn [firstn]. now constructor.
Qed.

(** [detectColumnIndex] gives the first label that contains one of the
    keywords once trimmed and lower-cased, and -1 when no label does. *)
Theorem detectColumnIndex_first_match (toLowerCase : jsstring -> jsstring)
    (labels matchers : list jsstring) :
  let detected := detectColumnIndex toLowerCase labels matchers in
  (detected = -1
   /\ forall label, In label labels ->
                    labelMatches toLowerCase matchers label = false)
  \/ (0 <= detected < Z.of_nat (List.length labels)
      /\ exists label,
           nth_error labels (Z.to_nat detected) = Some label
           /\ labelMatches toLowerCase matchers label = true
           /\ forall j earlier,
                (j < Z.to_nat detected)%nat ->
                nth_error labels j = Some earlier ->
                labelMatches toLowerCase matchers earlier = false).
Proof.
  cbv zeta. unfold detectColumnIndex, findIndex.
  destruct (findIndexFrom_spec
              (fun label => existsb (fun matcher => includes label matcher) matchers)
              (List.map (normalizeHeader toLowerCase) labels) 0)
    as [[Hr Hall] | (k & x & Hr & Hn & Hx & Hall)].
  - left. split; [assumption|]. intros label Hin.
    rewrite Forall_forall in Hall. apply (Hall (normalizeHeader toLowerCase label)).
    now apply in_map.
  - right. rewrite Hr. rewrite nth_error_map in Hn.
    destruct (nth_error labels k) as [label|] eqn:Ek; [|discriminate].
    injection Hn as <-.
    assert (Hk : (k < List.length labels)%nat)
      by (apply nth_error_Some; congruence).
    split; [lia|]. exists label.
    replace (Z.to_nat (0 + Z.of_nat k)) with k by lia.
    split; [assumption | split; [exact Hx|]].
    intros j earlier Hj Hearlier. rewrite Forall_forall in Hall.
    apply (Hall (normalizeHeader toLowerCase earlier)).
    rewrite firstn_map. apply in_map.
    rewrite <- (firstn_skipn k labels) in Hearlier.
    rewrite nth_error_app1 in Hearlier
      by (rewrite length_firstn; lia).
    now apply nth_error_In in Hearlier.
Qed.

Lemma detectColumnIndex_range (toLowerCase : jsstring -> jsstring)
    (labels matchers : list jsstring) :
  detectColumnIndex toLowerCase labels matchers < Z.of_nat (List.length labels).
Proof.
  destruct (detectColumnIndex_first_match toLowerCase labels matchers)
    as [[-> _] | [H _]]; lia.
Qed.

Lemma inBounds_nil (prev : Z) : inBounds prev [] = false.
Proof.
  unfold inBounds. cbn [List.length Z.of_nat].
  destruct (Z.leb_spec 0 prev), (Z.ltb_spec prev 0); try reflexivity. lia.
Qed.

Lemma nextDateColumnIndex_inBounds (toLowerCase : jsstring -> jsstring)
    (labels : list jsstring) (prev : Z) :
  labels <> [] ->
  inBounds (nextDateColumnIndex toLowerCase labels prev) labels = true.
Proof.
  intros Hne. unfold nextDateColumnIndex.
  destruct (inBounds prev labels) eqn:E; [assumption|].
  assert (Hlen : 0 < Z.of_nat (List.length labels))
    by (destruct labels; [congruence | simpl; lia]).
  match goal with
  | |- context [detectColumnIndex toLowerCase labels ?m] =>
      pose proof (detectColumnIndex_range toLowerCase labels m) as Hr;
      destruct (Z.leb_spec 0 (detectColumnIndex toLowerCase labels m))
  end; unfold inBounds; apply andb_true_iff;
    split; try apply Z.leb_le; try apply Z.ltb_lt; lia.
Qed.

Lemma nextBalanceColumnIndex_inBounds (toLowerCase : jsstring -> jsstring)
    (labels : list jsstring) (prev : Z) :
  labels <> [] ->
  inBounds (nextBalanceColumnIndex toLowerCase labels prev) labels = true.
Proof.
  intros Hne. unfold nextBalanceColumnIndex.
  destruct (inBounds prev labels) eqn:E; [assumption|].
  assert (Hlen : 0 < Z.of_nat (List.length labels))
    by (destruct labels; [congruence | simpl; lia]).
  match goal with
  | |- context [detectColumnIndex toLowerCase labels ?m] =>
      pose proof (detectColumnIndex_range toLowerCase labels m) as Hr;
      destruct (Z.leb_spec 0 (detectColumnIndex toLowerCase labels m))
  end; unfold inBounds; apply andb_true_iff;
    split; try apply Z.leb_le; try apply Z.ltb_lt; lia.
Qed.

Lemma nextAmountColumnIndex_inBounds (toLowerCase : jsstring -> jsstring)
    (labels : list jsstring) (prev : Z) :
  labels <> [] ->
  inBounds (nextAmountColumnIndex toLowerCase labels prev) labels = true.
Proof.
  intros Hne. unfold nextAmountColumnIndex.
  destruct (inBounds prev labels) eqn:E; [assumption|].
  assert (Hlen : 0 < Z.of_nat (List.length labels))
    by (destruct labels; [congruence | simpl; lia]).
  match goal with
  | |- context [detectColumnIndex toLowerCase labels ?m] =>
      pose proof (detectColumnIndex_range toLowerCase labels m) as Hr;
      destruct (Z.leb_spec 0 (detectColumnIndex toLowerCase labels m))
  end; unfold inBounds; apply andb_true_iff;
    split; try apply Z.leb_le; try apply Z.ltb_lt; lia.
Qed.

(** After the detection effect the date column and the value column of
    the current statement type are valid column indices whenever there is
    at least one column, a selection that was valid is kept, and with no
    column all three indices are -1. *)
Theorem detectColumns_in_bounds (toLowerCase : jsstring -> jsstring)
    (labels : list jsstring) (statementType : StatementType)
    (selection : ColumnSelection) :
  let next := detectColumns toLowerCase labels statementType selection in
  (labels = [] ->
   next = {| dateColumnIndex := -1; balanceColumnIndex := -1;
             amountColumnIndex := -1 |})
  /\ (labels <> [] ->
      inBounds (dateColumnIndex next) labels = true
      /\ inBounds (valueColumnIndex statementType next) labels = true)
  /\ (inBounds (dateColumnIndex selection) labels = true ->
      dateColumnIndex next = dateColumnIndex selection)
  /\ (inBounds (valueColumnIndex statementType selection) labels = true ->
      valueColumnIndex statementType next
      = valueColumnIndex statementType selection).
Proof.
  cbv zeta. unfold detectColumns. split; [intros ->; reflexivity|].
  split; [|split].
  - intros Hne. destruct labels as [|l0 labels]; [congruence|]. cbn [isEmpty].
    destruct statementType; cbn [dateColumnIndex valueColumnIndex
                                   balanceColumnIndex amountColumnIndex];
      auto using nextDateColumnIndex_inBounds, nextBalanceColumnIndex_inBounds,
        nextAmountColumnIndex_inBounds.
  - intros H. destruct labels as [|l0 labels];
      [now rewrite inBounds_nil in H|]. cbn [isEmpty].
    destruct statementType; cbn [dateColumnIndex];
      unfold nextDateColumnIndex; now rewrite H.
  - intros H. destruct labels as [|l0 labels];
      [now rewrite inBounds_nil in H|].
    cbn [isEmpty].
    destruct statementType; cbn [valueColumnIndex balanceColumnIndex
                                   amountColumnIndex] in *;
      unfold nextBalanceColumnIndex, nextAmountColumnIndex; now rewrite H.
Qed.

Lemma detectColumns_in_bounds_witness :
  let labels := [str "Posting Date"; str "Memo"; str "Running Balance"] in
  let selection := {| dateColumnIndex := -1; balanceColumnIndex := 7;
                      amountColumnIndex := -1 |} in
  labels <> []
  /\ inBounds (dateColumnIndex (detectColumns (fun s => s) labels balance selection))
       labels = true
  /\ inBounds (valueColumnIndex balance
                 (detectColumns (fun s => s) labels balance selection))
       labels = true.
Proof.
  cbv zeta.
  assert (Hne : [str "Posting Date"; str "Memo"; str "Running Balance"] <> [])
    by discriminate.
  exact (conj Hne
           (proj1 (proj2 (detectColumns_in_bounds (fun s => s) _ balance
                            {| dateColumnIndex := -1; balanceColumnIndex := 7;
                               amountColumnIndex := -1 |})) Hne)).
Defined.

(** Running the detection effect again changes nothing. *)
Theorem detectColumns_idempotent (toLowerCase : jsstring -> jsstring)
    (labels : list jsstring) (statementType : StatementType)
    (selection : ColumnSelection) :
  detectColumns toLowerCase labels statementType
    (detectColumns toLowerCase labels statementType selection)
  = detectColumns toLowerCase labels statementType selection.
Proof.
  destruct labels as [|l0 labels]; [reflexivity|].
  set (ls := l0 :: labels).
  assert (Hne : ls <> []) by discriminate.
  unfold detectColumns. cbn [isEmpty ls]. fold ls.
  destruct statementType;
    cbn [dateColumnIndex balanceColumnIndex amountColumnIndex]; f_equal.
  - unfold nextDateColumnIndex at 1.
    now rewrite (nextDateColumnIndex_inBounds toLowerCase ls _ Hne).
  - unfold nextBalanceColumnIndex at 1.
    now rewrite (nextBalanceColumnIndex_inBounds toLowerCase ls _ Hne).
  - unfold nextDateColumnIndex at 1.
    now rewrite (nextDateColumnIndex_inBounds toLowerCase ls _ Hne).
  - unfold nextAmountColumnIndex at 1.
    now rewrite (nextAmountColumnIndex_inBounds toLowerCase ls _ Hne).
Qed.

(** ** Column labels *)

Lemma maxColumns_fold (rawRows : list (list jsstring)) :
  forall acc,
    let m := fold_left (fun max row => Z.max max (Z.of_nat (List.length row)))
               rawRows acc in
    acc <= m
    /\ (forall row, In row rawRows -> Z.of_nat (List.length row) <= m)
    /\ (m = acc \/ exists row, In row rawRows /\ Z.of_nat (List.length row) = m).
Proof.
  induction rawRows as [|r rawRows IH]; intros acc; cbv zeta.
  - simpl. repeat split; [lia | contradiction | now left].
  - cbn [fold_left].
    destruct (IH (Z.max acc (Z.of_nat (List.length r)))) as (Hacc & Hall & Hex).
    split; [lia|]. split.
    + intros row [<- | Hin]; [lia | now apply Hall].
    + destruct Hex as [Hm | (row & Hin & Hm)].
      * destruct (Z.max_spec acc (Z.of_nat (List.length r))) as [[_ E] | [_ E]].
        -- right. exists r. split; [now left | lia].
        -- left. lia.
      * right. exists row. split; [now right | assumption].
Qed.

(** There is one label for every column of the widest row, no row has
    more cells than there are labels, and no label is empty. *)
Theorem columnLabels_cover (hasHeaderRow : bool) (rawRows : list (list jsstring)) :
  let labels := columnLabels hasHeaderRow rawRows in
  Z.of_nat (List.length labels) = maxColumns rawRows
  /\ (forall row, In row rawRows -> (List.length row <= List.length labels)%nat)
  /\ (labels <> [] ->
      exists row, In row rawRows /\ List.length row = List.length labels)
  /\ (forall label, In label labels -> label <> []).
Proof.
  cbv zeta.
  destruct (maxColumns_fold rawRows 0) as (Hpos & Hall & Hex).
  fold (maxColumns rawRows) in *.
  assert (Hlen : Z.of_nat (List.length (columnLabels hasHeaderRow rawRows))
                 = maxColumns rawRows).
  { unfold columnLabels. destruct (Z.eqb_spec (maxColumns rawRows) 0) as [E|E].
    - now rewrite E.
    - rewrite length_map, length_seq. lia. }
  split; [exact Hlen|]. split; [|split].
  - intros row Hin. specialize (Hall row Hin). lia.
  - intros Hne. destruct Hex as [E | (row & Hin & E)].
    + rewrite E in Hlen. destruct (columnLabels hasHeaderRow rawRows);
        [congruence | simpl in Hlen; lia].
    + exists row. split; [assumption | lia].
  - intros label Hin. unfold columnLabels in Hin.
    destruct (maxColumns rawRows =? 0); [contradiction|].
    apply in_map_iff in Hin as (index & <- & _).
    destruct (option_map trim _) as [[|c header]|]; discriminate.
Qed.

Lemma parseCsv_rows_nonempty (text : jsstring) (row : list jsstring) :
  In row (parseCsv text) -> row <> [].
Proof.
  unfold parseCsv.
  destruct (scanCsv text false [] [] []) as [[rows currentRow] currentField].
  intros Hin. apply filter_In in Hin as [_ H]. now destruct row.
Qed.

(** ** Row normalizer *)

Lemma mapIndexed_nth {A B} (f : A -> Z -> B) (l : list A) :
  forall i k,
    nth_error (mapIndexed f l i) k
    = option_map (fun x => f x (i + Z.of_nat k)) (nth_error l k).
Proof.
  induction l as [|x l IH]; intros i k.
  - now destruct k.
  - destruct k as [|k]; cbn [mapIndexed nth_error option_map].
    + now rewrite Z.add_0_r.
    + rewrite IH. destruct (nth_error l k); cbn [option_map]; [|reflexivity].
      do 2 f_equal. lia.
Qed.

Lemma mapIndexed_length {A B} (f : A -> Z -> B) (l : list A) :
  forall i, List.length (mapIndexed f l i) = List.length l.
Proof.
  induction l as [|x l IH]; intros i; simpl; [reflexivity | now rewrite IH].
Qed.

Lemma dataRows_nth (hasHeaderRow : bool) (rawRows : list (list jsstring))
    (k : nat) :
  nth_error (dataRows hasHeaderRow rawRows) k
  = nth_error rawRows (if hasHeaderRow then S k else k).
Proof.
  unfold dataRows. destruct rawRows as [|r rawRows]; cbn [isEmpty].
  - destruct hasHeaderRow; now destruct k.
  - now destruct hasHeaderRow.
Qed.

Section RowClaims.

Variable dateParse : jsstring -> option (Z * Z * Z).

(** Every normalized row is row number [rowIndex] (counted from 1) of the
    tokenized rows, header included; its raw texts are the cells of that
    row at the two column indices (empty when the row is too short) and
    its date and amount are what the normalizers make of those texts. *)
Theorem normalizedRows_point_at_raw_rows (rawRows : list (list jsstring))
    (hasHeaderRow : bool) (dateIndex valueIndex : Z) (dateFormat : DateFormat)
    (k : nat) (row : NormalizedRow) :
  nth_error
    (normalizedRows dateParse (dataRows hasHeaderRow rawRows) dateIndex
       valueIndex dateFormat hasHeaderRow) k = Some row ->
  rowIndex row = Z.of_nat k + (if hasHeaderRow then 2 else 1)
  /\ exists raw,
       nth_error rawRows (Z.to_nat (rowIndex row - 1)) = Some raw
       /\ rawDate row = cellAt raw dateIndex
       /\ rawValue row = cellAt raw valueIndex
       /\ dateIso row = normalizeDate dateParse (rawDate row) dateFormat
       /\ amount row = parseAmount (rawValue row).
Proof.
  unfold normalizedRows.
  destruct ((dateIndex <? 0) || (valueIndex <? 0)); [now destruct k|].
  rewrite mapIndexed_nth, dataRows_nth.
  destruct (nth_error rawRows (if hasHeaderRow then S k else k)) as [raw|] eqn:E;
    [|discriminate].
  cbn [option_map]. intros [= <-]. cbn [rowIndex rawDate rawValue dateIso amount].
  split; [destruct hasHeaderRow; lia|].
  exists raw. repeat split.
  rewrite <- E. f_equal. destruct hasHeaderRow; lia.
Qed.

End RowClaims.

Lemma normalizedRows_point_at_raw_rows_witness :
  let rawRows := [[str "Date"; str "Balance"]; [str "2024-01-05"; str "100"];
                  [str "2024-01-06"]] in
  exists row,
    nth_error (normalizedRows (fun _ => None) (dataRows true rawRows) 0 1 auto true)
      1 = Some row
    /\ rowIndex row = 3
    /\ nth_error rawRows (Z.to_nat (rowIndex row - 1)) = Some [str "2024-01-06"]
    /\ rawValue row = [].
Proof.
  cbv zeta. eexists. split; [reflexivity|].
  pose proof (normalizedRows_point_at_raw_rows (fun _ => None)
                [[str "Date"; str "Balance"]; [str "2024-01-05"; str "100"];
                 [str "2024-01-06"]] true 0 1 auto 1 _ eq_refl)
    as (Hi & raw & Hraw & _ & Hv & _).
  split; [exact Hi|]. split; [reflexivity | reflexivity].
Defined.

Lemma normalizeDate_blank (dateParse : jsstring -> option (Z * Z * Z))
    (raw : jsstring) (format : DateFormat) :
  isEmpty (trim raw) = true -> normalizeDate dateParse raw format = None.
Proof. intros H. unfold normalizeDate. now rewrite H. Qed.

Lemma parseAmount_blank (raw : jsstring) :
  isEmpty (trim raw) = true -> parseAmount raw = None.
Proof. intros H. unfold parseAmount, cleanAmount. now rewrite H. Qed.

Lemma cellAt_present (raw : list jsstring) (index : Z) :
  cellAt raw index <> [] -> 0 <= index /\ (Z.to_nat index < List.length raw)%nat.
Proof.
  unfold cellAt. destruct (Z.ltb_spec index 0); [congruence|].
  destruct (nth_error raw (Z.to_nat index)) eqn:E; [|congruence].
  intros _. split; [assumption|]. apply nth_error_Some. congruence.
Qed.

Section ValidRowClaims.

Variable dateParse : jsstring -> option (Z * Z * Z).

(** A valid row always comes from a full row: the tokenized row it was
    made from, row number [rowIndex], has a cell at the date index and a
    cell at the value index, these two cells are the raw texts of the
    valid row, and neither is blank. The other way round, a normalized
    row made from a tokenized row that is too short for the date column
    or for the value column is never valid: short rows are skipped, never
    read out of range. *)
Theorem valid_rows_come_from_full_rows (rawRows : list (list jsstring))
    (hasHeaderRow : bool) (dateIndex valueIndex : Z) (dateFormat : DateFormat) :
  let normalized :=
    normalizedRows dateParse (dataRows hasHeaderRow rawRows) dateIndex
      valueIndex dateFormat hasHeaderRow in
  (forall row,
      In row (validRows normalized) ->
      exists raw,
        nth_error rawRows (Z.to_nat (rowIndex row - 1)) = Some raw
        /\ 0 <= dateIndex /\ 0 <= valueIndex
        /\ nth_error raw (Z.to_nat dateIndex) = Some (rawDate row)
        /\ nth_error raw (Z.to_nat valueIndex) = Some (rawValue row)
        /\ isEmpty (trim (rawDate row)) = false
        /\ isEmpty (trim (rawValue row)) = false)
  /\ (forall k row raw,
         nth_error normalized k = Some row ->
         nth_error rawRows (Z.to_nat (rowIndex row - 1)) = Some raw ->
         Z.of_nat (List.length raw) <= dateIndex
         \/ Z.of_nat (List.length raw) <= valueIndex ->
         ~ In row (validRows normalized)).
Proof.
  cbv zeta.
  assert (Hfull : forall row,
             In row (validRows
                       (normalizedRows dateParse (dataRows hasHeaderRow rawRows)
                          dateIndex valueIndex dateFormat hasHeaderRow)) ->
             exists raw,
               nth_error rawRows (Z.to_nat (rowIndex row - 1)) = Some raw
               /\ 0 <= dateIndex /\ 0 <= valueIndex
               /\ nth_error raw (Z.to_nat dateIndex) = Some (rawDate row)
               /\ nth_error raw (Z.to_nat valueIndex) = Some (rawValue row)
               /\ isEmpty (trim (rawDate row)) = false
               /\ isEmpty (trim (rawValue row)) = false).
  { intros row Hin. unfold validRows in Hin.
    apply filter_In in Hin as [Hin Hvalid].
    apply In_nth_error in Hin as [k Hk].
    destruct (normalizedRows_point_at_raw_rows dateParse rawRows hasHeaderRow
                dateIndex valueIndex dateFormat k row Hk)
      as (_ & raw & Hraw & Hd & Hv & Hiso & Hamt).
    exists raw.
    apply andb_true_iff in Hvalid as [Hdate Hamount].
    assert (Td : isEmpty (trim (rawDate row)) = false).
    { destruct (isEmpty (trim (rawDate row))) eqn:E; [|reflexivity].
      rewrite Hiso, (normalizeDate_blank dateParse _ dateFormat E) in Hdate.
      discriminate. }
    assert (Tv : isEmpty (trim (rawValue row)) = false).
    { destruct (isEmpty (trim (rawValue row))) eqn:E; [|reflexivity].
      rewrite Hamt, (parseAmount_blank _ E) in Hamount. discriminate. }
    assert (Cd : cellAt raw dateIndex <> []).
    { rewrite <- Hd. intros E. rewrite E in Td. discriminate. }
    assert (Cv : cellAt raw valueIndex <> []).
    { rewrite <- Hv. intros E. rewrite E in Tv. discriminate. }
    destruct (cellAt_present raw dateIndex Cd) as [Hd0 _].
    destruct (cellAt_present raw valueIndex Cv) as [Hv0 _].
    rewrite Hd, Hv.
    repeat split; try assumption.
    - rewrite Hd in Td. unfold cellAt in *.
      destruct (Z.ltb_spec dateIndex 0); [lia|].
      destruct (nth_error raw (Z.to_nat dateIndex)); [reflexivity | congruence].
    - rewrite Hv in Tv. unfold cellAt in *.
      destruct (Z.ltb_spec valueIndex 0); [lia|].
      destruct (nth_error raw (Z.to_nat valueIndex)); [reflexivity | congruence].
    - now rewrite <- Hd.
    - now rewrite <- Hv. }
  split; [exact Hfull|].
  intros k row raw Hk Hraw Hshort Hin.
  destruct (Hfull row Hin) as (raw' & Hraw' & Hd0 & Hv0 & Hcd & Hcv & _).
  rewrite Hraw in Hraw'. injection Hraw' as <-.
  assert (Ld : (Z.to_nat dateIndex < List.length raw)%nat)
    by (apply nth_error_Some; congruence).
  assert (Lv : (Z.to_nat valueIndex < List.length raw)%nat)
    by (apply nth_error_Some; congruence).
  lia.
Qed.

(** Once a text with at least one non-blank row is tokenized and the
    detection effect has run, there is at least one column label, both
    column indices are valid, and every data row gets a normalized row. *)
Theorem loaded_file_is_normalized (toLowerCase : jsstring -> jsstring)
    (text : jsstring) (hasHeaderRow : bool) (statementType : StatementType)
    (selection : ColumnSelection) (dateFormat : DateFormat) :
  parseCsv text <> [] ->
  let rawRows := parseCsv text in
  let labels := columnLabels hasHeaderRow rawRows in
  let next := detectColumns toLowerCase labels statementType selection in
  labels <> []
  /\ inBounds (dateColumnIndex next) labels = true
  /\ inBounds (valueColumnIndex statementType next) labels = true
  /\ List.length
       (normalizedRows dateParse (dataRows hasHeaderRow rawRows)
          (dateColumnIndex next) (valueColumnIndex statementType next)
          dateFormat hasHeaderRow)
     = List.length (dataRows hasHeaderRow rawRows).
Proof.
  intros Hne. cbv zeta.
  assert (Hlabels : columnLabels hasHeaderRow (parseCsv text) <> []).
  { destruct (parseCsv text) as [|r rows] eqn:E; [congruence|].
    assert (Hr : r <> []).
    { apply (parseCsv_rows_nonempty text). rewrite E. now left. }
    destruct (columnLabels_cover hasHeaderRow (r :: rows)) as (_ & Hall & _).
    specialize (Hall r (or_introl eq_refl)).
    intros Hnil. rewrite Hnil in Hall. destruct r; [congruence|].
    simpl in Hall. lia. }
  destruct (detectColumns_in_bounds toLowerCase
              (columnLabels hasHeaderRow (parseCsv text)) statementType selection)
    as (_ & Hb & _).
  destruct (Hb Hlabels) as [Hd Hv].
  repeat split; try assumption.
  unfold normalizedRows.
  unfold inBounds in Hd, Hv.
  apply andb_true_iff in Hd as [Hd _]. apply andb_true_iff in Hv as [Hv _].
  apply Z.leb_le in Hd, Hv.
  destruct (Z.ltb_spec (dateColumnIndex
                          (detectColumns toLowerCase
                             (columnLabels hasHeaderRow (parseCsv text))
                             statementType selection)) 0); [lia|].
  destruct (Z.ltb_spec (valueColumnIndex statementType
                          (detectColumns toLowerCase
                             (columnLabels hasHeaderRow (parseCsv text))
                             statementType selection)) 0); [lia|].
  cbn [orb]. apply mapIndexed_length.
Qed.

End ValidRowClaims.

Lemma valid_rows_come_from_full_rows_witness :
  let rawRows := [[str "Date"; str "Balance"]; [str "2024-01-05"; str "100"];
                  [str "2024-01-06"]] in
  let normalized :=
    normalizedRows (fun _ => None) (dataRows true rawRows) 0 1 auto true in
  let full := {| rowIndex := 2; rawDate := str "2024-01-05";
                 rawValue := str "100"; dateIso := Some (str "2024-01-05");
                 amount := Some (ofZ 100) |} in
  let short := {| rowIndex := 3; rawDate := str "2024-01-06"; rawValue := [];
                  dateIso := Some (str "2024-01-06"); amount := None |} in
  normalized = [full; short]
  /\ In full (validRows normalized)
  /\ (exists raw,
         nth_error rawRows 1 = Some raw
         /\ nth_error raw 1 = Some (str "100"))
  /\ ~ In short (validRows normalized).
Proof.
  cbv zeta.
  pose proof (valid_rows_come_from_full_rows (fun _ => None)
                [[str "Date"; str "Balance"]; [str "2024-01-05"; str "100"];
                 [str "2024-01-06"]] true 0 1 auto) as [Hfull Hshort].
  cbv zeta in Hfull, Hshort.
  assert (Hin : In {| rowIndex := 2; rawDate := str "2024-01-05";
                      rawValue := str "100";
                      dateIso := Some (str "2024-01-05");
                      amount := Some (ofZ 100) |}
                  (validRows
                     (normalizedRows (fun _ => None)
                        (dataRows true
                           [[str "Date"; str "Balance"];
                            [str "2024-01-05"; str "100"]; [str "2024-01-06"]])
                        0 1 auto true))).
  { vm_compute. left. reflexivity. }
  split; [vm_compute; reflexivity|]. split; [exact Hin|]. split.
  - destruct (Hfull _ Hin) as (raw & Hraw & _ & _ & _ & Hv & _).
    exists raw. split; [exact Hraw | exact Hv].
  - apply (Hshort 1%nat _ [str "2024-01-06"]).
    + vm_compute. reflexivity.
    + reflexivity.
    + right. vm_compute. discriminate.
Defined.

Lemma loaded_file_is_normalized_witness :
  let text := str "Date,Balance" ++ [LF] ++ str "2024-01-05,100" in
  parseCsv text <> []
  /\ columnLabels true (parseCsv text) <> [].
Proof.
  cbv zeta.
  assert (Hne : parseCsv (str "Date,Balance" ++ [LF] ++ str "2024-01-05,100") <> [])
    by (vm_compute; discriminate).
  exact (conj Hne
           (proj1 (loaded_file_is_normalized (fun _ => None) (fun s => s) _ true
                     balance {| dateColumnIndex := -1; balanceColumnIndex := -1;
                                amountColumnIndex := -1 |} auto Hne))).
Defined.

(** ** Summary *)

Lemma last_map {A B} (f : A -> B) (l : list A) (d : A) :
  last (List.map f l) (f d) = f (last l d).
Proof.
  induction l as [|x l IH]; [reflexivity|].
  cbn [List.map last]. destruct l as [|y l]; [reflexivity | exact IH].
Qed.

Lemma last_default {A} (l : list A) (d d' : A) :
  l <> [] -> last l d = last l d'.
Proof.
  induction l as [|x l IH]; [congruence|]. intros _.
  destruct l as [|y l]; [reflexivity|].
  change (last (x :: y :: l) d) with (last (y :: l) d).
  change (last (x :: y :: l) d') with (last (y :: l) d').
  apply IH. discriminate.
Qed.

Lemma strictlyIncreasing_ends (d0 : jsstring) (ds : list jsstring) :
  strictlyIncreasing (d0 :: ds) ->
  forall d,
    In d (d0 :: ds) ->
    strCompare d0 d <> Gt /\ strCompare d (last (d0 :: ds) d0) <> Gt.
Proof.
  assert (Hrefl : forall a, strCompare a a <> Gt).
  { intros a. pose proof (strCompare_antisym a a) as H.
    destruct (strCompare a a); simpl in H; congruence. }
  revert d0. induction ds as [|d1 ds IH]; intros d0 Hs d Hin.
  - destruct Hin as [<- | []]. simpl. auto.
  - inversion Hs as [|? ? Hs' Hall]; subst.
    rewrite Forall_forall in Hall.
    change (last (d0 :: d1 :: ds) d0) with (last (d1 :: ds) d0).
    assert (Hlast : last (d1 :: ds) d0 = last (d1 :: ds) d1)
      by (apply last_default; discriminate).
    rewrite Hlast.
    destruct Hin as [<- | Hin].
    + split; [apply Hrefl|].
      destruct (IH d1 Hs' d1 (or_introl eq_refl)) as [_ H1].
      apply strCompare_trans with d1; [|assumption].
      rewrite (Hall d1 (or_introl eq_refl)). discriminate.
    + destruct (IH d1 Hs' d Hin) as [_ H2].
      split; [|assumption]. rewrite (Hall d Hin). discriminate.
Qed.

Lemma repeatedDates_nonneg (l : list NormalizedRow) :
  forall seen, 0 <= repeatedDates seen l.
Proof.
  induction l as [|row l IH]; intros seen; cbn [repeatedDates]; [lia|].
  destruct (dateIso row) as [d|]; [|apply IH].
  destruct (existsb (string_eqb d) seen);
    [specialize (IH seen) | apply IH]; lia.
Qed.

Section SummaryClaims.

Variable localeCompare : jsstring -> jsstring -> comparison.

Lemma dedupedRows_nil (statementType : StatementType) (l : list NormalizedRow) :
  Forall validRow l ->
  (rows (dedupedRows localeCompare statementType l) = [] <-> l = []).
Proof.
  intros Hv. split.
  - intros E. destruct l as [|row l]; [reflexivity|]. exfalso.
    assert (Hex : exists dates,
               List.map rowDateIso
                 (rows (dedupedRows localeCompare statementType (row :: l)))
               = List.map Some dates
               /\ forall d, In d dates
                            <-> exists r, In r (row :: l) /\ dateIso r = Some d).
    { destruct statementType;
        [destruct (balance_dates localeCompare (row :: l) Hv)
           as (dates & H1 & _ & H2 & _)
        | destruct (transactions_dates localeCompare (row :: l) Hv)
           as (dates & H1 & _ & H2 & _)]; eauto. }
    destruct Hex as (dates & Hmap & Hmem). rewrite E in Hmap.
    destruct dates as [|d dates]; [|discriminate].
    inversion Hv as [|? ? Hrow _]; subst.
    destruct (validRow_fields row Hrow) as (c & d & a & Hd & _).
    apply (proj2 (Hmem (c :: d))). exists row. split; [now left | assumption].
  - intros ->. now destruct statementType.
Qed.

(** The summary is absent exactly when there is no normalized row, and
    its counts add up: total rows are the valid and the skipped ones,
    valid rows are the unique days and the duplicates, no count is
    negative, and the date range is absent exactly when no row is
    valid. *)
Theorem summary_counts_add_up (statementType : StatementType)
    (normalizedRows : list NormalizedRow) :
  let valid := validRows normalizedRows in
  let shown :=
    summary normalizedRows valid (dedupedRows localeCompare statementType valid) in
  (shown = None <-> normalizedRows = [])
  /\ forall s,
       shown = Some s ->
       totalRows s = validRowCount s + skippedRows s
       /\ validRowCount s = uniqueDays s + summaryDuplicateCount s
       /\ 0 <= skippedRows s /\ 0 <= summaryDuplicateCount s
       /\ 0 <= uniqueDays s
       /\ (dateRange s = None <-> valid = []).
Proof.
  cbv zeta. pose proof (validRows_valid normalizedRows) as Hv.
  destruct (duplicateCount_spec localeCompare statementType _ Hv) as [Hdup Hlen].
  split.
  { unfold summary. destruct normalizedRows; cbn [isEmpty]; split; congruence. }
  intros s Hs. unfold summary in Hs.
  destruct (isEmpty normalizedRows); [discriminate|].
  injection Hs as <-.
  cbn [totalRows validRowCount skippedRows uniqueDays summaryDuplicateCount
         dateRange].
  assert (Hfilter : (List.length (validRows normalizedRows)
                     <= List.length normalizedRows)%nat)
    by apply filter_length_le.
  pose proof (repeatedDates_nonneg (validRows normalizedRows) []) as Hrep.
  repeat split; try lia.
  - intros H. apply (dedupedRows_nil statementType _ Hv).
    destruct (rows (dedupedRows localeCompare statementType
                      (validRows normalizedRows))); [reflexivity | discriminate].
  - intros H. apply (dedupedRows_nil statementType _ Hv) in H.
    now rewrite H.
Qed.

End SummaryClaims.

(** ** Import readiness *)

Lemma importEntries_length (selectedAccountId : jsstring)
    (statementType : StatementType) (startingBalance : option number)
    (l : list DedupedRow) :
  List.length (importEntries selectedAccountId statementType startingBalance l)
  = if isEmpty selectedAccountId
       || negb (hasValidStartingBalance statementType startingBalance)
    then 0%nat else List.length l.
Proof.
  unfold importEntries, hasValidStartingBalance.
  destruct (isEmpty selectedAccountId); [reflexivity|].
  destruct statementType; cbn [orb negb].
  - apply length_map.
  - destruct startingBalance; cbn [isNull negb];
      [apply runningEntries_length | reflexivity].
Qed.

Lemma importEntries_accountId (selectedAccountId : jsstring)
    (statementType : StatementType) (startingBalance : option number)
    (l : list DedupedRow) (entry : ImportEntry) :
  In entry (importEntries selectedAccountId statementType startingBalance l) ->
  accountId entry = selectedAccountId.
Proof.
  unfold importEntries. destruct (isEmpty selectedAccountId); [contradiction|].
  destruct statementType.
  - intros Hin. apply in_map_iff in Hin as (r & <- & _). reflexivity.
  - destruct startingBalance as [s|]; [|contradiction].
    revert s. induction l as [|r l IH]; intros s; [contradiction|].
    cbn [runningEntries]. intros [<- | Hin]; [reflexivity | eauto].
Qed.

Section ReadinessClaims.

Variable localeCompare : jsstring -> jsstring -> comparison.

(** Import is enabled only when at least one row is valid, and in
    transactions mode only when the starting balance parses; there is
    then exactly one entry per deduplicated day, each for the selected
    account. The starting-balance test of [canImport] follows from its
    other tests. *)
Theorem canImport_means_entries (statementType : StatementType)
    (normalizedRows : list NormalizedRow)
    (selectedAccountId fileName startingBalanceInput : jsstring)
    (dateIndex valueIndex : Z) (isImporting : bool) :
  let valid := validRows normalizedRows in
  let deduped := dedupedRows localeCompare statementType valid in
  let opening := startingBalance statementType startingBalanceInput in
  let entries := importEntries selectedAccountId statementType opening (rows deduped) in
  (canImport selectedAccountId fileName dateIndex valueIndex entries
     (hasValidStartingBalance statementType opening) isImporting
   = canImport selectedAccountId fileName dateIndex valueIndex entries true
       isImporting)
  /\ (canImport selectedAccountId fileName dateIndex valueIndex entries
        (hasValidStartingBalance statementType opening) isImporting = true ->
      valid <> []
      /\ List.length entries = List.length (rows deduped)
      /\ (statementType = transactions ->
          parseAmount startingBalanceInput <> None)
      /\ forall entry, In entry entries -> accountId entry = selectedAccountId).
Proof.
  cbv zeta.
  set (valid := validRows normalizedRows).
  set (deduped := dedupedRows localeCompare statementType valid).
  set (opening := startingBalance statementType startingBalanceInput).
  pose proof (importEntries_length selectedAccountId statementType opening
                (rows deduped)) as Hlen.
  pose proof (importEntries_accountId selectedAccountId statementType opening
                (rows deduped)) as Hacct.
  split.
  - unfold canImport.
    destruct (hasValidStartingBalance statementType opening) eqn:E;
      [reflexivity|].
    rewrite Hlen. cbn [negb orb]. rewrite orb_true_r. cbn [List.length Z.of_nat].
    rewrite Z.ltb_irrefl. now rewrite !andb_false_r.
  - unfold canImport. intros H.
    repeat (apply andb_true_iff in H as [H ?]).
    match goal with Hpos : (0 <? _) = true |- _ => apply Z.ltb_lt in Hpos;
      rename Hpos into Hpos' end.
    destruct (isEmpty selectedAccountId
              || negb (hasValidStartingBalance statementType opening)) eqn:E.
    { rewrite Hlen in Hpos'. simpl in Hpos'. lia. }
    rewrite Hlen in *. split; [|split; [reflexivity | split; [|exact Hacct]]].
    + intros Hnil.
      apply (dedupedRows_nil localeCompare statementType valid
               (validRows_valid normalizedRows)) in Hnil.
      fold deduped in Hnil. rewrite Hnil in Hpos'. simpl in Hpos'. lia.
    + intros -> Hnone. apply orb_false_iff in E as [_ E].
      unfold hasValidStartingBalance, opening, startingBalance in E.
      rewrite Hnone in E. discriminate.
Qed.

End ReadinessClaims.

Lemma canImport_means_entries_witness :
  let normalizedRows :=
    [ {| rowIndex := 2; rawDate := str "2024-03-02"; rawValue := str "100";
         dateIso := Some (str "2024-03-02"); amount := parseAmount (str "100") |} ] in
  canImport (str "acct-1") (str "a.csv") 0 1
    (importEntries (str "acct-1") transactions
       (startingBalance transactions (str "10"))
       (rows (dedupedRows strCompare transactions (validRows normalizedRows))))
    (hasValidStartingBalance transactions (startingBalance transactions (str "10")))
    false = true
  /\ validRows normalizedRows <> [].
Proof.
  cbv zeta.
  assert (H : canImport (str "acct-1") (str "a.csv") 0 1
    (importEntries (str "acct-1") transactions
       (startingBalance transactions (str "10"))
       (rows (dedupedRows strCompare transactions
                (validRows
                   [ {| rowIndex := 2; rawDate := str "2024-03-02";
                        rawValue := str "100";
                        dateIso := Some (str "2024-03-02");
                        amount := parseAmount (str "100") |} ]))))
    (hasValidStartingBalance transactions (startingBalance transactions (str "10")))
    false = true) by (vm_compute; reflexivity).
  exact (conj H (proj1 (proj2 (canImport_means_entries strCompare transactions
                                 _ _ _ _ _ _ _) H))).
Defined.

(** ** More on amounts *)

Lemma stripSymbols_dropWhile (s : jsstring) :
  stripSymbols (dropWhile isWhiteSpace s) = stripSymbols s.
Proof.
  induction s as [|c s IH]; [reflexivity|].
  cbn [dropWhile]. destruct (isWhiteSpace c) eqn:E; [|reflexivity].
  unfold stripSymbols in *. cbn [filter]. rewrite E.
  rewrite !orb_true_r. exact IH.
Qed.

Lemma stripSymbols_trim (s : jsstring) : stripSymbols (trim s) = stripSymbols s.
Proof.
  unfold trim, trimEnd, trimStart.
  unfold stripSymbols at 1. rewrite filter_rev.
  fold (stripSymbols (dropWhile isWhiteSpace (rev (dropWhile isWhiteSpace s)))).
  rewrite stripSymbols_dropWhile. unfold stripSymbols at 1.
  rewrite filter_rev, rev_involutive.
  apply stripSymbols_dropWhile.
Qed.

Lemma stripSymbols_idempotent (s : jsstring) :
  stripSymbols (stripSymbols s) = stripSymbols s.
Proof.
  unfold stripSymbols. induction s as [|c s IH]; [reflexivity|].
  cbn [filter].
  destruct (negb (char_eqb c DOLLAR || char_eqb c COMMA || isWhiteSpace c)) eqn:E;
    [|exact IH].
  cbn [filter]. rewrite E. now rewrite IH.
Qed.

Lemma stripSymbols_noWhite (s : jsstring) (c : char) :
  In c (stripSymbols s) -> isWhiteSpace c = false.
Proof.
  intros H. apply filter_In in H as [_ H].
  apply negb_true_iff in H. now apply orb_false_iff in H as [_ H].
Qed.

Lemma dropWhile_head {A} (p : A -> bool) (x : A) (l : list A) :
  p x = false -> dropWhile p (x :: l) = x :: l.
Proof. intros H. simpl. now rewrite H. Qed.

Lemma trim_noWhite (s : jsstring) :
  (forall c, In c s -> isWhiteSpace c = false) -> trim s = s.
Proof.
  intros H. unfold trim, trimStart, trimEnd.
  destruct s as [|c s]; [reflexivity|].
  rewrite (dropWhile_head _ c s (H c (or_introl eq_refl))).
  assert (Hne : c :: s <> []) by discriminate.
  destruct (exists_last Hne) as (s' & l & E).
  assert (Hl : isWhiteSpace l = false).
  { apply H. rewrite E. apply in_or_app. right. now left. }
  rewrite E, rev_app_distr. cbn [rev app].
  rewrite (dropWhile_head _ l _ Hl).
  change (l :: rev s') with ([l] ++ rev s').
  rewrite rev_app_distr, rev_involutive. reflexivity.
Qed.

Lemma startsWith_nil (s : jsstring) : startsWith s [] = true.
Proof. now destruct s. Qed.

(** The shape of a text that starts with [(] and ends with [)]. *)
Lemma parens_shape (t : jsstring) :
  startsWith t [LPAREN] && endsWith t [RPAREN] = true ->
  exists mid, t = LPAREN :: mid ++ [RPAREN].
Proof.
  intros H. apply andb_true_iff in H as [Hs He].
  destruct t as [|c t]; [discriminate|].
  cbn [startsWith] in Hs. apply andb_true_iff in Hs as [Hc _].
  apply char_eqb_eq in Hc. subst c.
  unfold endsWith in He.
  assert (Hne : LPAREN :: t <> []) by discriminate.
  destruct (exists_last Hne) as (t' & l & E). rewrite E in He.
  rewrite rev_app_distr in He. cbn [rev app startsWith] in He.
  apply andb_true_iff in He as [Hl _]. apply char_eqb_eq in Hl. subst l.
  destruct t' as [|c' mid]; [discriminate E|].
  cbn [app] in E. injection E as <- ->. eauto.
Qed.

Lemma parens_hold (mid : jsstring) :
  startsWith (LPAREN :: mid ++ [RPAREN]) [LPAREN]
  && endsWith (LPAREN :: mid ++ [RPAREN]) [RPAREN] = true.
Proof.
  unfold endsWith.
  change (LPAREN :: mid ++ [RPAREN]) with ((LPAREN :: mid) ++ [RPAREN]).
  rewrite rev_app_distr. cbn [app rev startsWith].
  now rewrite !char_eqb_refl, !startsWith_nil.
Qed.

Lemma slice1m1_parens (mid : jsstring) :
  slice1m1 (LPAREN :: mid ++ [RPAREN]) = mid.
Proof. unfold slice1m1. cbn [tl]. apply removelast_last. Qed.

(** Dollar signs, commas and white space can be removed from an amount
    text without changing the amount, as long as removing them does not
    change whether the text is wrapped in parentheses. *)
Theorem amount_ignores_symbols (raw : jsstring) :
  enclosedInParens (stripSymbols raw) = enclosedInParens raw ->
  parseAmount (stripSymbols raw) = parseAmount raw.
Proof.
  unfold enclosedInParens. intros Hp.
  assert (Htrim : trim (stripSymbols raw) = stripSymbols raw)
    by (apply trim_noWhite; intros c; apply stripSymbols_noWhite).
  rewrite Htrim in Hp.
  unfold parseAmount, cleanAmount. rewrite Htrim.
  destruct (trim raw) as [|c t] eqn:Et.
  { pose proof (stripSymbols_trim raw) as H. rewrite Et in H.
    cbn in H. rewrite <- H. reflexivity. }
  cbn [isEmpty]. rewrite Hp.
  destruct (startsWith (c :: t) [LPAREN] && endsWith (c :: t) [RPAREN]) eqn:E.
  - destruct (parens_shape (c :: t) E) as (mid & Emid). rewrite Emid.
    rewrite slice1m1_parens.
    assert (Es : stripSymbols raw = LPAREN :: stripSymbols mid ++ [RPAREN]).
    { rewrite <- (stripSymbols_trim raw), Et, Emid.
      change (LPAREN :: mid ++ [RPAREN]) with ([LPAREN] ++ mid ++ [RPAREN]).
      unfold stripSymbols. rewrite !filter_app. reflexivity. }
    rewrite Es. cbn [isEmpty]. rewrite slice1m1_parens, stripSymbols_idempotent.
    reflexivity.
  - rewrite stripSymbols_idempotent.
    rewrite <- (stripSymbols_trim raw), Et.
    destruct (stripSymbols (c :: t)) as [|c' s'] eqn:Es; [|reflexivity].
    reflexivity.
Qed.

Lemma amount_ignores_symbols_witness :
  enclosedInParens (stripSymbols (str " ( $ 1,234.50 ) "))
  = enclosedInParens (str " ( $ 1,234.50 ) ")
  /\ parseAmount (str "(1234.50)") = parseAmount (str " ( $ 1,234.50 ) ").
Proof.
  split; [reflexivity|].
  exact (amount_ignores_symbols (str " ( $ 1,234.50 ) ") eq_refl).
Defined.

Lemma trim_parens (mid : jsstring) :
  trim (LPAREN :: mid ++ [RPAREN]) = LPAREN :: mid ++ [RPAREN].
Proof.
  unfold trim. rewrite (trimStart_id LPAREN _ eq_refl).
  change (LPAREN :: mid ++ [RPAREN]) with ((LPAREN :: mid) ++ [RPAREN]).
  now apply trimEnd_id.
Qed.

Lemma trimEnd_cons (c : char) (t : jsstring) :
  isWhiteSpace c = false -> exists t', trimEnd (c :: t) = c :: t'.
Proof.
  intros Hc. unfold trimEnd. cbn [rev].
  assert (H : forall l, exists r,
             dropWhile isWhiteSpace (l ++ [c]) = r ++ [c]).
  { induction l as [|x l [r IH]]; cbn [app dropWhile].
    - rewrite Hc. now exists [].
    - destruct (isWhiteSpace x); [eauto | now exists (x :: l)]. }
  destruct (H (rev t)) as [r ->].
  rewrite rev_app_distr. cbn [rev app]. eauto.
Qed.

(** Accounting parentheses and a leading minus sign mean the same: for a
    text whose stripped form does not itself start with a minus sign,
    wrapping it in parentheses gives the amount that prefixing it with a
    minus sign gives. *)
Theorem parentheses_mean_minus (t : jsstring) :
  startsWith (stripSymbols t) [MINUS] = false ->
  parseAmount (LPAREN :: t ++ [RPAREN]) = parseAmount (MINUS :: t).
Proof.
  intros Hm. unfold parseAmount, cleanAmount.
  rewrite trim_parens. cbn [isEmpty]. rewrite parens_hold, slice1m1_parens, Hm.
  destruct (trimEnd_cons MINUS t eq_refl) as [t' Et].
  assert (Etrim : trim (MINUS :: t) = MINUS :: t').
  { unfold trim. now rewrite (trimStart_id MINUS t eq_refl). }
  assert (Es : stripSymbols (MINUS :: t') = MINUS :: stripSymbols t).
  { rewrite <- Etrim, stripSymbols_trim. reflexivity. }
  rewrite Etrim. cbn [isEmpty startsWith].
  change (char_eqb MINUS LPAREN) with false. cbn [andb].
  rewrite Es. cbn [startsWith]. rewrite char_eqb_refl, startsWith_nil.
  cbn [andb slice1 tl]. reflexivity.
Qed.

Lemma parentheses_mean_minus_witness :
  startsWith (stripSymbols (str "$1,234.50")) [MINUS] = false
  /\ parseAmount (str "($1,234.50)") = parseAmount (str "-$1,234.50").
Proof.
  split; [reflexivity|].
  exact (parentheses_mean_minus (str "$1,234.50") eq_refl).
Defined.

(** An amount, when present, is never NaN. *)
Theorem amount_is_never_NaN (raw : jsstring) (v : number) :
  parseAmount raw = Some v -> isNaN v = false.
Proof.
  unfold parseAmount.
  destruct (cleanAmount raw) as [[isNegative cleaned]|]; [|discriminate].
  destruct (parseFloat cleaned) as [s|s| |s m e] eqn:E; cbn [isNaN];
    try discriminate; destruct isNegative; intros [= <-]; reflexivity.
Qed.

Lemma amount_is_never_NaN_witness :
  parseAmount (str "(Infinity)") = Some (S754_infinity true)
  /\ isNaN (S754_infinity true) = false.
Proof.
  assert (H : parseAmount (str "(Infinity)") = Some (S754_infinity true))
    by reflexivity.
  exact (conj H (amount_is_never_NaN _ _ H)).
Defined.

(** ** More on dates *)

Lemma shortDigits_nonempty (ds : jsstring) :
  shortDigits ds -> isEmpty ds = false /\ (List.length ds =? 4)%nat = false.
Proof.
  intros [_ Hl]. destruct ds as [|a [|b [|c ds]]]; simpl in *; try lia; auto.
Qed.

Lemma parseDateFromParts_digits (A B Y : jsstring) :
  shortDigits A -> shortDigits B -> allDigits Y -> List.length Y = 4%nat ->
  parseDateFromParts [A; B; Y] mdy = toIsoDate (Number Y) (Number A) (Number B)
  /\ parseDateFromParts [A; B; Y] dmy = toIsoDate (Number Y) (Number B) (Number A)
  /\ parseDateFromParts [A; B; Y] ymd = None.
Proof.
  intros HA HB HY HlY.
  destruct (shortDigits_nonempty A HA) as [HeA HlA].
  destruct (shortDigits_nonempty B HB) as [HeB _].
  assert (HeY : isEmpty Y = false) by (destruct Y; [discriminate | reflexivity]).
  unfold parseDateFromParts. cbn [List.map].
  rewrite (trim_digits A (proj1 HA)), (trim_digits B (proj1 HB)),
    (trim_digits Y HY).
  rewrite HeA, HeB, HeY, HlY, HlA. cbn [orb andb format_eqb Nat.eqb].
  repeat split.
Qed.

Lemma isoMatch_parts (Y M D : jsstring) (sep1 sep2 : char) :
  allDigits Y -> List.length Y = 4%nat -> shortDigits M -> shortDigits D ->
  isDateSep sep1 -> isDateSep sep2 ->
  isoMatch (Y ++ [sep1] ++ M ++ [sep2] ++ D) = Some (Y, M, D).
Proof.
  intros HY HlY [HM HlM] [HD HlD] H1 H2.
  pose proof (dateSep_not_digit _ H1) as N1.
  pose proof (dateSep_not_digit _ H2) as N2.
  unfold isoMatch, matchDate, digitGroup.
  rewrite (takeDigits_app Y 4 ([sep1] ++ M ++ [sep2] ++ D) HY ltac:(lia) N1).
  rewrite HlY. change (4 <=? 4)%nat with true. cbn [andb app].
  rewrite (dateSep_cons _ _ H1).
  rewrite (takeDigits_app M 2 (sep2 :: D) HM ltac:(lia) N2).
  destruct (Nat.leb_spec 1 (List.length M)); [|lia].
  rewrite (dateSep_cons _ _ H2).
  rewrite <- (app_nil_r D) at 1.
  rewrite (takeDigits_app D 2 [] HD ltac:(lia) I).
  destruct (Nat.leb_spec 1 (List.length D)); [|lia]. reflexivity.
Qed.

Lemma normalizeDate_year_first (dateParse : jsstring -> option (Z * Z * Z))
    (Y M D : jsstring) (sep1 sep2 : char) (format : DateFormat) :
  allDigits Y -> List.length Y = 4%nat -> shortDigits M -> shortDigits D ->
  isDateSep sep1 -> isDateSep sep2 ->
  normalizeDate dateParse (Y ++ [sep1] ++ M ++ [sep2] ++ D) format
  = toIsoDate (Number Y) (Number M) (Number D).
Proof.
  intros HY HlY HM HD H1 H2. unfold normalizeDate.
  assert (HnY : Y <> []) by (destruct Y; discriminate).
  assert (HnD : D <> []).
  { destruct HD as [_ Hl]. destruct D; [simpl in Hl; lia | discriminate]. }
  pose proof (trim_digit_ends Y ([sep1] ++ M ++ [sep2]) D HY HnY (proj1 HD) HnD)
    as Htrim.
  rewrite <- !app_assoc in Htrim. rewrite Htrim.
  rewrite (isoMatch_parts Y M D sep1 sep2 HY HlY HM HD H1 H2).
  destruct Y; [congruence | reflexivity].
Qed.

Section PolicyClaims.

Variable dateParse : jsstring -> option (Z * Z * Z).

(** A date written year first (four digits, then one or two digits for
    the month and for the day, separated by [/] or [-]) is read the same
    way under every format policy, and never goes to the host's date
    parser. *)
Theorem year_first_dates_ignore_policy (Y M D : jsstring) (sep1 sep2 : char)
    (format : DateFormat) :
  allDigits Y -> List.length Y = 4%nat -> shortDigits M -> shortDigits D ->
  isDateSep sep1 -> isDateSep sep2 ->
  normalizeDate dateParse (Y ++ [sep1] ++ M ++ [sep2] ++ D) format
  = toIsoDate (Number Y) (Number M) (Number D).
Proof. apply normalizeDate_year_first. Qed.

(** Under the year-month-day policy a date written A/B/YYYY is rejected
    outright, whatever the host's date parser would make of it. *)
Theorem ymd_policy_rejects_year_last (A B Y : jsstring) (sep1 sep2 : char) :
  shortDigits A -> shortDigits B -> allDigits Y -> List.length Y = 4%nat ->
  isDateSep sep1 -> isDateSep sep2 ->
  normalizeDate dateParse (A ++ [sep1] ++ B ++ [sep2] ++ Y) ymd = None.
Proof.
  intros HA HB HY HlY H1 H2.
  rewrite (numeric_date_policies dateParse A B Y sep1 sep2 HA HB HY HlY H1 H2).
  apply (parseDateFromParts_digits A B Y HA HB HY HlY).
Qed.

(** Reading A/B/YYYY as month-day-year is reading B/A/YYYY as
    day-month-year. *)
Theorem mdy_is_dmy_swapped (A B Y : jsstring) (sep1 sep2 : char) :
  shortDigits A -> shortDigits B -> allDigits Y -> List.length Y = 4%nat ->
  isDateSep sep1 -> isDateSep sep2 ->
  normalizeDate dateParse (A ++ [sep1] ++ B ++ [sep2] ++ Y) mdy
  = normalizeDate dateParse (B ++ [sep1] ++ A ++ [sep2] ++ Y) dmy.
Proof.
  intros HA HB HY HlY H1 H2.
  rewrite (numeric_date_policies dateParse A B Y sep1 sep2 HA HB HY HlY H1 H2).
  rewrite (numeric_date_policies dateParse B A Y sep1 sep2 HB HA HY HlY H1 H2).
  destruct (parseDateFromParts_digits A B Y HA HB HY HlY) as (-> & _ & _).
  destruct (parseDateFromParts_digits B A Y HB HA HY HlY) as (_ & -> & _).
  reflexivity.
Qed.

End PolicyClaims.

Lemma year_first_dates_ignore_policy_witness :
  normalizeDate (fun _ => None) (str "2024" ++ [SLASH] ++ str "2" ++ [MINUS] ++ str "29") dmy
  = toIsoDate (Number (str "2024")) (Number (str "2")) (Number (str "29")).
Proof.
  apply (year_first_dates_ignore_policy (fun _ => None)
           (str "2024") (str "2") (str "29") SLASH MINUS dmy).
  - repeat constructor.
  - reflexivity.
  - split; [repeat constructor | simpl; lia].
  - split; [repeat constructor | simpl; lia].
  - now left.
  - now right.
Defined.

Lemma ymd_policy_rejects_year_last_witness :
  normalizeDate (fun _ => Some (2024, 4, 13))
    (str "05" ++ [SLASH] ++ str "13" ++ [SLASH] ++ str "2024") ymd = None.
Proof.
  apply (ymd_policy_rejects_year_last (fun _ => Some (2024, 4, 13))
           (str "05") (str "13") (str "2024") SLASH SLASH).
  - split; [repeat constructor | simpl; lia].
  - split; [repeat constructor | simpl; lia].
  - repeat constructor.
  - reflexivity.
  - now left.
  - now left.
Defined.

Lemma mdy_is_dmy_swapped_witness :
  normalizeDate (fun _ => None)
    (str "05" ++ [SLASH] ++ str "13" ++ [SLASH] ++ str "2024") mdy
  = normalizeDate (fun _ => None)
      (str "13" ++ [SLASH] ++ str "05" ++ [SLASH] ++ str "2024") dmy.
Proof.
  apply (mdy_is_dmy_swapped (fun _ => None)
           (str "05") (str "13") (str "2024") SLASH SLASH).
  - split; [repeat constructor | simpl; lia].
  - split; [repeat constructor | simpl; lia].
  - repeat constructor.
  - reflexivity.
  - now left.
  - now left.
Defined.

(** ** Calendar dates round trip *)

Lemma holdsFrom_spec (p : Z -> bool) (n : nat) :
  forall lo, holdsFrom p lo n = true ->
  forall z, lo <= z < lo + Z.of_nat n -> p z = true.
Proof.
  induction n as [|n IH]; intros lo H z Hz; [lia|].
  cbn [holdsFrom] in H. apply andb_true_iff in H as [H0 H1].
  destruct (Z.eq_dec z lo) as [->|Hne]; [exact H0|].
  apply (IH (lo + 1) H1). lia.
Qed.

Lemma sameValue_eq (x y : number) : sameValue x y = true -> x = y.
Proof.
  destruct x as [a|a| |s m e], y as [b|b| |s' m' e']; cbn [sameValue];
    try discriminate; try reflexivity.
  - intros H. apply Bool.eqb_prop in H. now subst.
  - intros H. apply Bool.eqb_prop in H. now subst.
  - intros H. apply andb_true_iff in H as [H He].
    apply andb_true_iff in H as [Hs Hm].
    apply Bool.eqb_prop in Hs. apply Pos.eqb_eq in Hm. apply Z.eqb_eq in He.
    now subst.
Qed.

Lemma plainInteger_facts (w : nat) (z : Z) :
  plainInteger w z = true ->
  isFinite (ofZ z) = true /\ truncate (ofZ z) = z
  /\ eqb (ofZ z) (ofZ z) = true
  /\ Number (padDigits w z) = ofZ z
  /\ sub (ofZ (z + 1)) (ofZ 1) = ofZ z.
Proof.
  unfold plainInteger. intros H.
  apply andb_true_iff in H as [H H5]. apply andb_true_iff in H as [H H4].
  apply andb_true_iff in H as [H H3]. apply andb_true_iff in H as [H1 H2].
  apply Z.eqb_eq in H2. apply sameValue_eq in H4. apply sameValue_eq in H5.
  auto.
Qed.

Lemma four_digit_numbers (z : Z) :
  0 <= z <= 9999 -> plainInteger 4 z = true.
Proof.
  intros Hz.
  assert (H : holdsFrom (plainInteger 4) 0 (Z.to_nat 10000) = true)
    by (vm_compute; reflexivity).
  apply (holdsFrom_spec _ _ _ H). lia.
Qed.

Lemma two_digit_numbers (z : Z) :
  0 <= z <= 99 -> plainInteger 2 z = true.
Proof.
  intros Hz.
  assert (H : holdsFrom (plainInteger 2) 0 (Z.to_nat 100) = true)
    by (vm_compute; reflexivity).
  apply (holdsFrom_spec _ _ _ H). lia.
Qed.

Lemma DayFromYear_mono (a b : Z) : a < b -> DayFromYear a < DayFromYear b.
Proof.
  unfold DayFromYear. intros H.
  assert (H4 : (a - 1969) / 4 <= (b - 1969) / 4)
    by (apply Z.div_le_mono; lia).
  assert (H400 : (a - 1601) / 400 <= (b - 1601) / 400)
    by (apply Z.div_le_mono; lia).
  assert (H100 : (b - 1901) / 100 <= (a - 1901) / 100 + (b - a))
    by (Z.div_mod_to_equations; lia).
  lia.
Qed.

Lemma YearFromDay_lower (y d : Z) :
  DayFromYear y <= d -> y <= YearFromDay d.
Proof.
  intros H. pose proof (YearFromDay_bracket d) as B.
  destruct (Z.le_gt_cases y (YearFromDay d)) as [L|G]; [exact L|].
  destruct (Z.eq_dec (YearFromDay d + 1) y) as [E|N].
  - rewrite E in B. lia.
  - pose proof (DayFromYear_mono (YearFromDay d + 1) y ltac:(lia)). lia.
Qed.

Lemma YearFromDay_unique (y d : Z) :
  DayFromYear y <= d < DayFromYear (y + 1) -> YearFromDay d = y.
Proof.
  intros H. pose proof (YearFromDay_bracket d) as B.
  pose proof (YearFromDay_lower y d (proj1 H)) as L.
  destruct (Z.eq_dec (YearFromDay d) y) as [E|N]; [exact E|].
  destruct (Z.eq_dec (YearFromDay d) (y + 1)) as [E|N'].
  - rewrite E in B. lia.
  - pose proof (DayFromYear_mono (y + 1) (YearFromDay d) ltac:(lia)). lia.
Qed.

Lemma Day_of_days (d : Z) : Day (d * msPerDay) = d.
Proof. unfold Day. apply Z.div_mul. discriminate. Qed.

Lemma MakeDay_month (Y M D : Z) :
  1 <= M <= 12 ->
  MakeDay Y (M - 1) D
  = DayFromYear Y + monthStart (InLeapYear Y) (M - 1) + D - 1.
Proof.
  intros H. unfold MakeDay. cbv zeta.
  rewrite (Z.div_small (M - 1) 12), (Z.mod_small (M - 1) 12) by lia.
  rewrite Z.add_0_r. reflexivity.
Qed.

Lemma month_cases (M : Z) :
  1 <= M <= 12 ->
  M = 1 \/ M = 2 \/ M = 3 \/ M = 4 \/ M = 5 \/ M = 6 \/ M = 7 \/ M = 8
  \/ M = 9 \/ M = 10 \/ M = 11 \/ M = 12.
Proof. lia. Qed.

Ltac month_enum H :=
  apply month_cases in H;
  repeat (destruct H as [H|H]; [subst|]); [..|subst];
  repeat match goal with
         | |- context [Z.pos ?p - 1] =>
             let v := eval vm_compute in (Z.pos p - 1) in
             change (Z.pos p - 1) with v
         end.

Lemma monthStart_nonneg (leap M : Z) :
  leap = 0 \/ leap = 1 -> 1 <= M <= 12 -> 0 <= monthStart leap (M - 1) <= 335.
Proof.
  intros Hl HM. month_enum HM; cbv beta iota delta [monthStart]; lia.
Qed.

Lemma daysInMonth_le (Y M : Z) : 1 <= M <= 12 -> 28 <= daysInMonth Y M <= 31.
Proof.
  intros HM. pose proof (InLeapYear_cases Y) as Hl. unfold daysInMonth.
  month_enum HM; cbv iota; lia.
Qed.

(** The day built from a real calendar date has that year, month and
    day. *)
Lemma MakeDay_calendar (Y M D : Z) :
  validCalendarDate Y M D ->
  YearFromTime (MakeDay Y (M - 1) D * msPerDay) = Y
  /\ MonthFromTime (MakeDay Y (M - 1) D * msPerDay) = M - 1
  /\ DateFromTime (MakeDay Y (M - 1) D * msPerDay) = D.
Proof.
  intros [HM HD].
  rewrite (MakeDay_month Y M D HM).
  pose proof (InLeapYear_cases Y) as Hl.
  unfold daysInMonth in HD.
  set (d := DayFromYear Y + monthStart (InLeapYear Y) (M - 1) + D - 1).
  assert (Hy : YearFromTime (d * msPerDay) = Y).
  { unfold YearFromTime. rewrite Day_of_days. apply YearFromDay_unique.
    rewrite DayFromYear_step. unfold DaysInYear. subst d.
    set (leap := InLeapYear Y) in *. clearbody leap.
    month_enum HM; cbv beta iota delta [monthStart]; cbv iota in HD; lia. }
  split; [exact Hy|].
  assert (Hw : DayWithinYear (d * msPerDay)
               = monthStart (InLeapYear Y) (M - 1) + D - 1).
  { unfold DayWithinYear. rewrite Hy, Day_of_days. subst d. lia. }
  assert (Hm : MonthFromTime (d * msPerDay) = M - 1).
  { unfold MonthFromTime. rewrite Hy, Hw. cbv zeta.
    set (leap := InLeapYear Y) in *. clearbody leap. clear Hy Hw d.
    month_enum HM; cbv beta iota delta [monthStart]; cbv iota in HD;
      repeat match goal with
             | |- context [?a <? ?b] => destruct (Z.ltb_spec a b); try lia
             end. }
  split; [exact Hm|].
  unfold DateFromTime. rewrite Hy, Hw, Hm. lia.
Qed.

Lemma toIsoDate_calendar (Y M D : Z) :
  100 <= Y <= 9999 -> validCalendarDate Y M D ->
  toIsoDate (ofZ Y) (ofZ M) (ofZ D) = Some (isoDateText Y M D).
Proof.
  intros HY Hv. pose proof Hv as [HM HD].
  pose proof (daysInMonth_le Y M HM) as HD31.
  destruct (plainInteger_facts 4 Y (four_digit_numbers Y ltac:(lia)))
    as (FY & TY & EY & _ & _).
  destruct (plainInteger_facts 2 (M - 1) (two_digit_numbers (M - 1) ltac:(lia)))
    as (FM & TM & _ & _ & SM).
  replace (M - 1 + 1) with M in SM by lia.
  destruct (plainInteger_facts 2 M (two_digit_numbers M ltac:(lia)))
    as (_ & _ & EM & _ & _).
  destruct (plainInteger_facts 2 D (two_digit_numbers D ltac:(lia)))
    as (FD & TD & ED & _ & _).
  destruct (MakeDay_calendar Y M D Hv) as (Hy & Hm & Hd).
  unfold toIsoDate, Date_UTC. cbv zeta.
  rewrite SM, FY, FM, FD, TY, TM, TD. cbn [andb].
  destruct (Z.leb_spec Y 99); [lia|]. rewrite andb_false_r.
  unfold TimeClip.
  destruct (Z.leb_spec (Z.abs (MakeDay Y (M - 1) D * msPerDay)) maxTime)
    as [_|Hbig].
  - cbn [getUTCFullYear getUTCMonth getUTCDate]. rewrite Hy, Hm, Hd.
    rewrite (add_month_one (M - 1)) by lia.
    replace (M - 1 + 1) with M by lia.
    rewrite EY, EM, ED. cbn [negb orb].
    rewrite toISOString_date_part, Hy, Hm, Hd.
    replace (M - 1 + 1) with M by lia. reflexivity.
  - exfalso. rewrite (MakeDay_month Y M D HM) in Hbig.
    pose proof (monthStart_nonneg (InLeapYear Y) M (InLeapYear_cases Y) HM).
    assert (-700000 <= DayFromYear Y <= 3000000)
      by (unfold DayFromYear; Z.div_mod_to_equations; lia).
    unfold msPerDay, maxTime in Hbig. lia.
Qed.

Lemma padDigits_length (w : nat) : forall n, List.length (padDigits w n) = w.
Proof.
  induction w as [|w IH]; intros n; cbn [padDigits]; [reflexivity|].
  rewrite length_app, IH. cbn [List.length]. lia.
Qed.

Lemma padDigits_allDigits (w : nat) (n : Z) : allDigits (padDigits w n).
Proof. apply Forall_forall. intros c. apply padDigits_digits. Qed.

Lemma normalizeDate_isoDateText (dateParse : jsstring -> option (Z * Z * Z))
    (Y M D : Z) (format : DateFormat) :
  100 <= Y <= 9999 -> validCalendarDate Y M D ->
  normalizeDate dateParse (isoDateText Y M D) format
  = Some (isoDateText Y M D).
Proof.
  intros HY Hv. pose proof Hv as [HM HD].
  pose proof (daysInMonth_le Y M HM) as HD31.
  rewrite <- (toIsoDate_calendar Y M D HY Hv).
  destruct (plainInteger_facts 4 Y (four_digit_numbers Y ltac:(lia)))
    as (_ & _ & _ & <- & _).
  destruct (plainInteger_facts 2 M (two_digit_numbers M ltac:(lia)))
    as (_ & _ & _ & <- & _).
  destruct (plainInteger_facts 2 D (two_digit_numbers D ltac:(lia)))
    as (_ & _ & _ & <- & _).
  unfold isoDateText, isoYear.
  destruct (Z.leb_spec 0 Y); [|lia]. destruct (Z.leb_spec Y 9999); [|lia].
  cbn [andb].
  apply normalizeDate_year_first.
  - apply padDigits_allDigits.
  - apply padDigits_length.
  - split; [apply padDigits_allDigits | rewrite padDigits_length; lia].
  - split; [apply padDigits_allDigits | rewrite padDigits_length; lia].
  - now right.
  - now right.
Qed.

Lemma eqb_same (x y : number) :
  eqb x y = true -> truncate x <> 0 -> x = y.
Proof.
  unfold eqb, SFeqb, SFcompare.
  destruct x as [a|a| |s m e]; cbn [truncate]; try congruence.
  intros H _.
  destruct y as [b|b| |s' m' e']; try (destruct s; discriminate);
    try (destruct b; discriminate); try discriminate.
  change (Pos.compare_cont Eq m m') with (Pos.compare m m') in H.
  destruct s, s'; try discriminate;
    destruct (Z.compare_spec e e'); try discriminate;
    destruct (Pos.compare_spec m m'); try discriminate; now subst.
Qed.

Lemma eqb_truncate (x y : number) :
  eqb x y = true -> truncate x = truncate y.
Proof.
  unfold eqb, SFeqb, SFcompare. intros H.
  destruct x as [a|a| |s m e], y as [b|b| |s' m' e']; cbn [truncate];
    try reflexivity; try discriminate;
    try (destruct a; discriminate); try (destruct b; discriminate);
    try (destruct s; discriminate); try (destruct s'; discriminate).
  change (Pos.compare_cont Eq m m') with (Pos.compare m m') in H.
  destruct s, s'; try discriminate;
    destruct (Z.compare_spec e e'); try discriminate;
    destruct (Pos.compare_spec m m'); try discriminate; now subst.
Qed.

Lemma Date_UTC_integers (year : number) (M D : Z) :
  isFinite year = true -> 1 <= M <= 100 -> 0 <= D <= 99 ->
  Date_UTC year (sub (ofZ M) (ofZ 1)) (ofZ D)
  = TimeClip
      (MakeDay (if (0 <=? truncate year) && (truncate year <=? 99)
                then 1900 + truncate year else truncate year)
         (M - 1) D * msPerDay).
Proof.
  intros FY HM HD.
  destruct (plainInteger_facts 2 (M - 1) (two_digit_numbers (M - 1) ltac:(lia)))
    as (FM & TM & _ & _ & SM).
  replace (M - 1 + 1) with M in SM by lia.
  destruct (plainInteger_facts 2 D (two_digit_numbers D HD))
    as (FD & TD & _ & _ & _).
  unfold Date_UTC. rewrite SM, FY, FM, FD, TM, TD. reflexivity.
Qed.

Lemma TimeClip_Some (x t : Z) : TimeClip x = Some t -> t = x.
Proof.
  unfold TimeClip. destruct (Z.abs x <=? maxTime); [|discriminate].
  now intros [= <-].
Qed.

(** An accepted date is a real calendar date outside the years 0 to 99:
    those years are rebuilt 1900 years later and never reproduced. *)
Lemma toIsoDate_year (year month day : number) (iso : jsstring) :
  toIsoDate year month day = Some iso ->
  exists Y M D,
    iso = isoDateText Y M D /\ validCalendarDate Y M D /\ ~ (0 <= Y <= 99).
Proof.
  intros H. apply toIsoDate_Some in H as (t & Ht & Hy & Hm & Hd & Hiso).
  destruct (getters_valid t) as [Hrange Hvalid].
  rewrite (add_month_one _ Hrange) in Hm.
  exists (YearFromTime t), (MonthFromTime t + 1), (DateFromTime t).
  split; [exact Hiso|]. split; [exact Hvalid|].
  intros HY.
  remember (YearFromTime t) as Y eqn:EY.
  remember (MonthFromTime t + 1) as M eqn:EM.
  remember (DateFromTime t) as D eqn:ED.
  destruct Hvalid as [HM HD].
  pose proof (daysInMonth_le Y M HM) as HD31.
  destruct (plainInteger_facts 2 Y (two_digit_numbers Y HY))
    as (_ & TY & _ & _ & _).
  destruct (plainInteger_facts 2 M (two_digit_numbers M ltac:(lia)))
    as (_ & TM1 & _ & _ & _).
  destruct (plainInteger_facts 2 D (two_digit_numbers D ltac:(lia)))
    as (_ & TD & _ & _ & _).
  apply eqb_truncate in Hy. rewrite TY in Hy.
  apply eqb_same in Hm; [|rewrite TM1; lia].
  apply eqb_same in Hd; [|rewrite TD; lia].
  subst month day.
  assert (FY : isFinite year = true).
  { unfold Date_UTC in Ht. destruct (isFinite year); [reflexivity|].
    discriminate Ht. }
  rewrite (Date_UTC_integers year M D FY ltac:(lia) ltac:(lia)) in Ht.
  rewrite <- Hy in Ht.
  assert (E : (0 <=? Y) && (Y <=? 99) = true)
    by (apply andb_true_iff; split; apply Z.leb_le; lia).
  rewrite E in Ht. apply TimeClip_Some in Ht.
  assert (Hday : Day t = MakeDay (1900 + Y) (M - 1) D)
    by (rewrite Ht; apply Day_of_days).
  rewrite (MakeDay_month (1900 + Y) M D HM) in Hday.
  pose proof (monthStart_nonneg (InLeapYear (1900 + Y)) M
                (InLeapYear_cases (1900 + Y)) HM).
  pose proof (YearFromDay_lower (1900 + Y) (Day t) ltac:(lia)) as L.
  unfold YearFromTime in EY. lia.
Qed.

Lemma isoDateText_length (Y M D : Z) :
  List.length (isoDateText Y M D) = 10%nat -> 0 <= Y <= 9999.
Proof.
  unfold isoDateText, isoYear.
  destruct (Z.leb_spec 0 Y); destruct (Z.leb_spec Y 9999); cbn [andb];
    try lia;
    rewrite !length_app; cbn [List.length]; rewrite !padDigits_length; lia.
Qed.

Lemma isoDateText_first_century (Y M D : Z) :
  ~ (0 <= Y <= 99) -> startsWith (isoDateText Y M D) (str "00") = false.
Proof.
  intros HY. change (str "00") with [48%N; 48%N].
  unfold isoDateText, isoYear.
  destruct (Z.leb_spec 0 Y); destruct (Z.leb_spec Y 9999); cbn [andb];
    try (destruct (Y <? 0); reflexivity).
  cbn [padDigits app startsWith].
  destruct (char_eqb (Z.to_N (48 + Y / 10 / 10 / 10 mod 10)) 48%N) eqn:E1;
    [|reflexivity].
  destruct (char_eqb (Z.to_N (48 + Y / 10 / 10 mod 10)) 48%N) eqn:E2;
    [|reflexivity].
  exfalso.
  apply char_eqb_eq in E1. apply char_eqb_eq in E2.
  apply (f_equal Z.of_N) in E1. apply (f_equal Z.of_N) in E2.
  pose proof (Z.mod_pos_bound (Y / 10 / 10 / 10) 10 eq_refl).
  pose proof (Z.mod_pos_bound (Y / 10 / 10) 10 eq_refl).
  rewrite Z2N.id in E1, E2 by lia.
  change (Z.of_N 48) with 48 in *.
  Z.div_mod_to_equations. lia.
Qed.

Section RoundTripClaims.

Variable dateParse : jsstring -> option (Z * Z * Z).

(** Every real calendar date of the years 100 to 9999, written the way
    the normalizer writes dates (YYYY-MM-DD), is accepted and comes back
    unchanged, under every format policy. *)
Theorem calendar_dates_round_trip (Y M D : Z) (format : DateFormat) :
  100 <= Y <= 9999 -> validCalendarDate Y M D ->
  normalizeDate dateParse (isoDateText Y M D) format
  = Some (isoDateText Y M D).
Proof. apply normalizeDate_isoDateText. Qed.

(** The normalizer never returns a date of the years 0 to 99: no result
    starts with [00]. *)
Theorem no_dates_before_year_100 (raw : jsstring) (format : DateFormat)
    (iso : jsstring) :
  normalizeDate dateParse raw format = Some iso ->
  startsWith iso (str "00") = false
  /\ exists Y M D,
       iso = isoDateText Y M D /\ validCalendarDate Y M D
       /\ ~ (0 <= Y <= 99).
Proof.
  intros H. apply normalizeDate_from_toIsoDate in H as (y & m & d & H).
  destruct (toIsoDate_year y m d iso H) as (Y & M & D & -> & Hv & HY).
  split; [now apply isoDateText_first_century | now exists Y, M, D].
Qed.

(** Normalizing is idempotent on ten-character results: a returned date
    with a four-digit year is accepted again, unchanged, under every
    format policy. *)
Theorem normalizeDate_idempotent (raw : jsstring) (format format' : DateFormat)
    (iso : jsstring) :
  normalizeDate dateParse raw format = Some iso ->
  List.length iso = 10%nat ->
  normalizeDate dateParse iso format' = Some iso.
Proof.
  intros H Hlen. apply normalizeDate_from_toIsoDate in H as (y & m & d & H).
  destruct (toIsoDate_year y m d iso H) as (Y & M & D & -> & Hv & HY).
  apply isoDateText_length in Hlen.
  apply normalizeDate_isoDateText; [lia | exact Hv].
Qed.

End RoundTripClaims.

Lemma calendar_dates_round_trip_witness :
  normalizeDate (fun _ => None) (str "2024-02-29") dmy
  = Some (str "2024-02-29").
Proof.
  apply (calendar_dates_round_trip (fun _ => None) 2024 2 29 dmy).
  - lia.
  - vm_compute. repeat split; discriminate.
Defined.

Lemma no_dates_before_year_100_witness :
  startsWith (str "1999-12-31") (str "00") = false
  /\ exists Y M D,
       str "1999-12-31" = isoDateText Y M D /\ validCalendarDate Y M D
       /\ ~ (0 <= Y <= 99).
Proof.
  apply (no_dates_before_year_100 (fun _ => None) (str "31.12.1999") dmy).
  vm_compute. reflexivity.
Defined.

Lemma normalizeDate_idempotent_witness :
  normalizeDate (fun _ => None) (str "2024-03-05") mdy
  = Some (str "2024-03-05").
Proof.
  apply (normalizeDate_idempotent (fun _ => None) (str "3/5/2024") mdy mdy).
  - vm_compute. reflexivity.
  - reflexivity.
Defined.

(** ** The date range of the summary *)

Lemma strCompare_padDigits (w : nat) :
  forall a b r r',
    0 <= a < 10 ^ Z.of_nat w -> 0 <= b < 10 ^ Z.of_nat w ->
    strCompare (padDigits w a ++ r) (padDigits w b ++ r')
    = match a ?= b with Eq => strCompare r r' | c => c end.
Proof.
  induction w as [|w IH]; intros a b r r' Ha Hb.
  - change (10 ^ Z.of_nat 0) with 1 in *.
    assert (a = 0) by lia. assert (b = 0) by lia. subst. reflexivity.
  - rewrite Nat2Z.inj_succ, Z.pow_succ_r in Ha, Hb by lia.
    cbn [padDigits]. rewrite <- !app_assoc.
    rewrite IH by (split; [apply Z.div_pos; lia
                          | apply Z.div_lt_upper_bound; lia]).
    cbn [app strCompare].
    pose proof (Z.mod_pos_bound a 10 eq_refl) as Ma.
    pose proof (Z.mod_pos_bound b 10 eq_refl) as Mb.
    rewrite Z2N.inj_compare by lia.
    destruct (Z.compare_spec (a / 10) (b / 10));
      destruct (Z.compare_spec (48 + a mod 10) (48 + b mod 10));
      destruct (Z.compare_spec a b); try reflexivity; exfalso;
      Z.div_mod_to_equations; lia.
Qed.

(** Plain dates compare, as texts, the way their years, months and days
    do. *)
Lemma strCompare_plainDate (a b : jsstring) (Y M D Y' M' D' : Z) :
  plainDate a Y M D -> plainDate b Y' M' D' ->
  strCompare a b
  = match Y ?= Y' with
    | Eq => match M ?= M' with Eq => D ?= D' | c => c end
    | c => c
    end.
Proof.
  intros (-> & HY & HM & HD) (-> & HY' & HM' & HD').
  pose proof (daysInMonth_le Y M HM). pose proof (daysInMonth_le Y' M' HM').
  unfold isoDateText, isoYear.
  destruct (Z.leb_spec 0 Y); [|lia]. destruct (Z.leb_spec Y 9999); [|lia].
  destruct (Z.leb_spec 0 Y'); [|lia]. destruct (Z.leb_spec Y' 9999); [|lia].
  cbn [andb].
  rewrite strCompare_padDigits by (change (10 ^ Z.of_nat 4) with 10000; lia).
  destruct (Y ?= Y'); try reflexivity.
  cbn [app strCompare]. rewrite N.compare_refl.
  rewrite strCompare_padDigits by (change (10 ^ Z.of_nat 2) with 100; lia).
  destruct (M ?= M'); try reflexivity.
  cbn [app strCompare]. rewrite N.compare_refl.
  rewrite <- (app_nil_r (padDigits 2 D)), <- (app_nil_r (padDigits 2 D')).
  rewrite strCompare_padDigits by (change (10 ^ Z.of_nat 2) with 100; lia).
  now destruct (D ?= D').
Qed.

Lemma plainDate_order (a b : jsstring) (Y M D Y' M' D' : Z) :
  plainDate a Y M D -> plainDate b Y' M' D' ->
  strCompare a b <> Gt -> notAfter (Y, M, D) (Y', M', D').
Proof.
  intros Ha Hb. rewrite (strCompare_plainDate a b Y M D Y' M' D' Ha Hb).
  unfold notAfter.
  destruct (Z.compare_spec Y Y'); destruct (Z.compare_spec M M');
    destruct (Z.compare_spec D D'); intros Hc; try congruence; lia.
Qed.

Section RangeClaims.

Variable localeCompare : jsstring -> jsstring -> comparison.

(** When the collation orders the dates of the valid rows as the
    code-unit order does, the date range shown runs from the least to the
    greatest date of the valid rows in code-unit order. When moreover
    all these dates are calendar dates with four-digit years, the range
    runs from the earliest to the latest of them; with expanded years
    the code-unit order is not the order of the calendar. *)
Theorem summary_date_range_spans_valid_rows (statementType : StatementType)
    (normalizedRows : list NormalizedRow) (s : Summary)
    (range : option jsstring * option jsstring) :
  let valid := validRows normalizedRows in
  (forall a b,
      (exists row, In row valid /\ dateIso row = Some a) ->
      (exists row, In row valid /\ dateIso row = Some b) ->
      localeCompare a b = strCompare a b) ->
  summary normalizedRows valid (dedupedRows localeCompare statementType valid)
  = Some s ->
  dateRange s = Some range ->
  exists first final,
    range = (Some first, Some final)
    /\ (exists row, In row valid /\ dateIso row = Some first)
    /\ (exists row, In row valid /\ dateIso row = Some final)
    /\ (forall row d,
           In row valid -> dateIso row = Some d ->
           strCompare first d <> Gt /\ strCompare d final <> Gt)
    /\ ((forall row d,
            In row valid -> dateIso row = Some d ->
            exists Y M D, plainDate d Y M D) ->
        exists Y1 M1 D1 Y2 M2 D2,
          plainDate first Y1 M1 D1 /\ plainDate final Y2 M2 D2
          /\ forall row d Y M D,
               In row valid -> dateIso row = Some d -> plainDate d Y M D ->
               notAfter (Y1, M1, D1) (Y, M, D)
               /\ notAfter (Y, M, D) (Y2, M2, D2)).
Proof.
  cbv zeta. intros Hlc Hs Hrange.
  pose proof (validRows_valid normalizedRows) as Hv.
  assert (Hex : exists dates,
             List.map rowDateIso
               (rows (dedupedRows localeCompare statementType
                        (validRows normalizedRows)))
             = List.map Some dates
             /\ (forall d, In d dates
                           <-> exists r, In r (validRows normalizedRows)
                                         /\ dateIso r = Some d)
             /\ strictlyIncreasing dates).
  { destruct statementType;
      [destruct (balance_dates localeCompare _ Hv) as (dates & H1 & _ & H2 & H3)
      | destruct (transactions_dates localeCompare _ Hv)
          as (dates & H1 & _ & H2 & H3)];
      exists dates; auto. }
  destruct Hex as (dates & Hmap & Hmem & Hsorted).
  unfold summary in Hs. destruct (isEmpty normalizedRows); [discriminate|].
  injection Hs as <-. cbn [dateRange] in Hrange.
  destruct (rows (dedupedRows localeCompare statementType
                    (validRows normalizedRows))) as [|e es] eqn:E;
    [discriminate|].
  injection Hrange as <-.
  destruct dates as [|d0 ds]; [discriminate|].
  assert (H0 : rowDateIso e = Some d0) by (cbn [List.map] in Hmap; congruence).
  assert (Hl : rowDateIso (last (e :: es) e) = Some (last (d0 :: ds) d0)).
  { rewrite <- (last_map rowDateIso (e :: es) e), Hmap, H0.
    apply (last_map Some (d0 :: ds) d0). }
  assert (Hfirst : exists row,
             In row (validRows normalizedRows) /\ dateIso row = Some d0)
    by (apply Hmem; now left).
  assert (Hfinal : exists row,
             In row (validRows normalizedRows)
             /\ dateIso row = Some (last (d0 :: ds) d0)).
  { apply Hmem. destruct (exists_last (l := d0 :: ds) ltac:(discriminate))
      as (l' & x & El). rewrite El. rewrite last_last.
    apply in_or_app. right. now left. }
  assert (Hends : forall row d,
             In row (validRows normalizedRows) -> dateIso row = Some d ->
             strCompare d0 d <> Gt
             /\ strCompare d (last (d0 :: ds) d0) <> Gt).
  { intros row d Hin Hd.
    apply (strictlyIncreasing_ends d0 ds Hsorted).
    apply Hmem. eauto. }
  exists d0, (last (d0 :: ds) d0).
  split; [f_equal; [exact H0 | exact Hl]|].
  split; [exact Hfirst|]. split; [exact Hfinal|]. split; [exact Hends|].
  intros Hplain.
  destruct Hfirst as (r1 & Hr1 & Hd1). destruct Hfinal as (r2 & Hr2 & Hd2).
  destruct (Hplain r1 d0 Hr1 Hd1) as (Y1 & M1 & D1 & P1).
  destruct (Hplain r2 _ Hr2 Hd2) as (Y2 & M2 & D2 & P2).
  exists Y1, M1, D1, Y2, M2, D2.
  split; [exact P1|]. split; [exact P2|].
  intros row d Y M D Hin Hd P.
  destruct (Hends row d Hin Hd) as [Hlo Hhi].
  split; [exact (plainDate_order _ _ _ _ _ _ _ _ P1 P Hlo)
         | exact (plainDate_order _ _ _ _ _ _ _ _ P P2 Hhi)].
Qed.

End RangeClaims.

Lemma summary_date_range_spans_valid_rows_witness :
  let row d v := {| rowIndex := 2; rawDate := d; rawValue := v;
                    dateIso := Some d; amount := parseAmount v |} in
  let normalizedRows :=
    [row (str "2024-03-02") (str "100"); row (str "2024-03-01") (str "50");
     row (str "2024-03-04") (str "7")] in
  exists s,
    summary normalizedRows (validRows normalizedRows)
      (dedupedRows strCompare balance (validRows normalizedRows)) = Some s
    /\ dateRange s = Some (Some (str "2024-03-01"), Some (str "2024-03-04"))
    /\ exists Y1 M1 D1 Y2 M2 D2,
         plainDate (str "2024-03-01") Y1 M1 D1
         /\ plainDate (str "2024-03-04") Y2 M2 D2
         /\ notAfter (Y1, M1, D1) (2024, 3, 2)
         /\ notAfter (2024, 3, 2) (Y2, M2, D2).
Proof.
  cbv zeta. eexists. split; [vm_compute; reflexivity|].
  split; [reflexivity|].
  assert (Hplain : forall Y M D,
             1 <= M <= 12 -> 1 <= D <= 28 -> 0 <= Y <= 9999 ->
             plainDate (isoDateText Y M D) Y M D).
  { intros Y M D HM HD HY. split; [reflexivity|]. split; [exact HY|].
    split; [exact HM|]. pose proof (daysInMonth_le Y M HM). lia. }
  destruct (summary_date_range_spans_valid_rows strCompare balance
              [ {| rowIndex := 2; rawDate := str "2024-03-02";
                   rawValue := str "100"; dateIso := Some (str "2024-03-02");
                   amount := parseAmount (str "100") |};
                {| rowIndex := 2; rawDate := str "2024-03-01";
                   rawValue := str "50"; dateIso := Some (str "2024-03-01");
                   amount := parseAmount (str "50") |};
                {| rowIndex := 2; rawDate := str "2024-03-04";
                   rawValue := str "7"; dateIso := Some (str "2024-03-04");
                   amount := parseAmount (str "7") |} ]
              _ (Some (str "2024-03-01"), Some (str "2024-03-04"))
              (fun a b _ _ => eq_refl) eq_refl eq_refl)
    as (first & final & Hrange & _ & _ & _ & Hcal).
  injection Hrange as <- <-.
  destruct Hcal as (Y1 & M1 & D1 & Y2 & M2 & D2 & P1 & P2 & Hall).
  { intros row d Hin Hd.
    destruct Hin as [<-|[<-|[<-|[]]]]; injection Hd as <-.
    - exists 2024, 3, 2. apply (Hplain 2024 3 2); lia.
    - exists 2024, 3, 1. apply (Hplain 2024 3 1); lia.
    - exists 2024, 3, 4. apply (Hplain 2024 3 4); lia. }
  exists Y1, M1, D1, Y2, M2, D2.
  split; [exact P1|]. split; [exact P2|].
  apply (Hall _ (str "2024-03-02") 2024 3 2 (or_introl eq_refl) eq_refl).
  apply (Hplain 2024 3 2); lia.
Defined.
